(** * crystal_barista: a shallow embedding of [crystal_barista.go]

    The bar is a single Go file: text helpers ([truncate],
    [mediaFormatFunc]), the output functions handed to the barista modules,
    and [main], which registers the modes of the modal group and starts the
    render loop.  Go values are embedded as follows.

    - A Go [string] is a sequence of bytes, and so is Rocq's [string]
      (a list of 8-bit [ascii]); a literal written here denotes the bytes of
      its UTF-8 encoding, exactly as a Go literal does.
    - A Go [int] is a [Z] kept inside the 64-bit two's complement range by
      [wrap]; a [rune] is a [Z].
    - A run-time panic is the result [None].
    - Code that talks to the outside world ([main]) runs in a small
      state-and-panic monad whose state is the trace of library calls.
    - The modal group of the barista library is not part of the sources;
      it is modelled after the specification, in [Module modal].

    [hms], [formatMediaTime], [whereami], [k8sCtx] and the weather provider
    take no part in the properties below and are not embedded. *)

From Stdlib Require Import ZArith Lia List Bool Ascii String.
From Stdlib Require Import DecimalString Floats.
Import ListNotations.
Set Warnings "-inexact-float".
Local Open Scope string_scope.
Local Open Scope list_scope.
Local Open Scope Z_scope.

(** Concatenation of Go strings, [s + t]. *)
Infix "+:+" := String.append (at level 60, right associativity).

(** ** Go integers *)

Definition intSize : Z := 64.
Definition MinInt : Z := - 2 ^ (intSize - 1).
Definition MaxInt : Z := 2 ^ (intSize - 1) - 1.

(** Two's complement wrap-around of [int] arithmetic. *)
Definition wrap (z : Z) : Z := (z - MinInt) mod 2 ^ intSize + MinInt.

Definition neg (a : Z) : Z := wrap (- a).
Definition add (a b : Z) : Z := wrap (a + b).
Definition sub (a b : Z) : Z := wrap (a - b).

(** ** Strings, bytes and runes *)

Definition byteVal (c : ascii) : Z := Z.of_N (N_of_ascii c).

(** [byte(x)]: conversion of an integer to a byte keeps the low 8 bits. *)
Definition toByte (x : Z) : ascii := ascii_of_N (Z.to_N (Z.land x 255)).

(** [len(s)] for a string: its number of bytes. *)
Definition len (s : string) : Z := Z.of_nat (String.length s).

(** Constants of the UTF-8 coder (Go's [runtime/utf8.go]). *)
Definition runeError : Z := 65533.    (* U+FFFD *)
Definition maxRune : Z := 1114111.    (* U+10FFFF *)
Definition surrogateMin : Z := 55296. (* 0xD800 *)
Definition surrogateMax : Z := 57343. (* 0xDFFF *)
Definition tx : Z := 128.
Definition t2 : Z := 192.
Definition t3 : Z := 224.
Definition t4 : Z := 240.
Definition t5 : Z := 248.
Definition maskx : Z := 63.
Definition mask2 : Z := 31.
Definition mask3 : Z := 15.
Definition mask4 : Z := 7.
Definition rune1Max : Z := 127.
Definition rune2Max : Z := 2047.
Definition rune3Max : Z := 65535.
Definition locb : Z := 128.
Definition hicb : Z := 191.

Definition isCont (b : Z) : bool := (locb <=? b) && (b <=? hicb).

(** [decoderune]: the rune that starts the string and the number of bytes
    it occupies; a byte that starts no valid encoding is [runeError] of
    width 1. *)
Definition decoderune (s : string) : Z * nat :=
  match s with
  | EmptyString => (runeError, 1%nat)
  | String c0 s1 =>
    let b0 := byteVal c0 in
    if b0 <? 128 then (b0, 1%nat)
    else if (t2 <=? b0) && (b0 <? t3) then
      match s1 with
      | String c1 _ =>
        let b1 := byteVal c1 in
        let r := Z.lor (Z.shiftl (Z.land b0 mask2) 6) (Z.land b1 maskx) in
        if isCont b1 && (rune1Max <? r) then (r, 2%nat) else (runeError, 1%nat)
      | _ => (runeError, 1%nat)
      end
    else if (t3 <=? b0) && (b0 <? t4) then
      match s1 with
      | String c1 (String c2 _) =>
        let b1 := byteVal c1 in
        let b2 := byteVal c2 in
        let r := Z.lor (Z.lor (Z.shiftl (Z.land b0 mask3) 12)
                              (Z.shiftl (Z.land b1 maskx) 6))
                       (Z.land b2 maskx) in
        if isCont b1 && isCont b2 && (rune2Max <? r)
           && negb ((surrogateMin <=? r) && (r <=? surrogateMax))
        then (r, 3%nat) else (runeError, 1%nat)
      | _ => (runeError, 1%nat)
      end
    else if (t4 <=? b0) && (b0 <? t5) then
      match s1 with
      | String c1 (String c2 (String c3 _)) =>
        let b1 := byteVal c1 in
        let b2 := byteVal c2 in
        let b3 := byteVal c3 in
        let r := Z.lor (Z.lor (Z.lor (Z.shiftl (Z.land b0 mask4) 18)
                                     (Z.shiftl (Z.land b1 maskx) 12))
                              (Z.shiftl (Z.land b2 maskx) 6))
                       (Z.land b3 maskx) in
        if isCont b1 && isCont b2 && isCont b3
           && (rune3Max <? r) && (r <=? maxRune)
        then (r, 4%nat) else (runeError, 1%nat)
      | _ => (runeError, 1%nat)
      end
    else (runeError, 1%nat)
  end.

(** [[]rune(s)]: decode at the current byte, then skip the bytes the rune
    occupied.  [skip] counts the bytes of the current rune still to pass. *)
Fixpoint runesFrom (skip : nat) (s : string) : list Z :=
  match s with
  | EmptyString => []
  | String _ rest =>
    match skip with
    | S k => runesFrom k rest
    | O => let (r, w) := decoderune s in r :: runesFrom (Nat.pred w) rest
    end
  end.

Definition runes (s : string) : list Z := runesFrom 0 s.

(** [encoderune]: the UTF-8 bytes of one rune; a rune that is no Unicode
    scalar value is written as [runeError]. *)
Definition encode3 (r : Z) : string :=
  String (toByte (Z.lor t3 (Z.shiftr r 12)))
    (String (toByte (Z.lor tx (Z.land (Z.shiftr r 6) maskx)))
      (String (toByte (Z.lor tx (Z.land r maskx))) EmptyString)).

Definition encoderune (r : Z) : string :=
  let i := r mod 2 ^ 32 in  (* uint32(r) *)
  if i <=? rune1Max then String (toByte r) EmptyString
  else if i <=? rune2Max then
    String (toByte (Z.lor t2 (Z.shiftr r 6)))
      (String (toByte (Z.lor tx (Z.land r maskx))) EmptyString)
  else if (maxRune <? i) || ((surrogateMin <=? i) && (i <=? surrogateMax))
  then encode3 runeError
  else if i <=? rune3Max then encode3 r
  else
    String (toByte (Z.lor t4 (Z.shiftr r 18)))
      (String (toByte (Z.lor tx (Z.land (Z.shiftr r 12) maskx)))
        (String (toByte (Z.lor tx (Z.land (Z.shiftr r 6) maskx)))
          (String (toByte (Z.lor tx (Z.land r maskx))) EmptyString))).

(** [string(rs)] for a rune slice. *)
Fixpoint stringOfRunes (rs : list Z) : string :=
  match rs with
  | [] => EmptyString
  | r :: rs' => encoderune r +:+ stringOfRunes rs'
  end.

(** The runes that are Unicode scalar values, and the number of bytes of
    their encoding. *)
Definition validRune (r : Z) : bool :=
  (0 <=? r) && (r <=? maxRune)
  && negb ((surrogateMin <=? r) && (r <=? surrogateMax)).

Definition runeLen (r : Z) : nat :=
  if r <=? rune1Max then 1
  else if r <=? rune2Max then 2
  else if r <=? rune3Max then 3 else 4.

(** Slice expressions [rs[lo:]] and [rs[:hi]] on a slice whose capacity is
    its length; an index out of range panics. *)
Definition sliceFrom {A} (rs : list A) (lo : Z) : option (list A) :=
  if (0 <=? lo) && (lo <=? Z.of_nat (List.length rs))
  then Some (skipn (Z.to_nat lo) rs) else None.

Definition sliceTo {A} (rs : list A) (hi : Z) : option (list A) :=
  if (0 <=? hi) && (hi <=? Z.of_nat (List.length rs))
  then Some (firstn (Z.to_nat hi) rs) else None.

(** ** [truncate] *)

Definition ellipsis : string := "⋯".
Definition ellipsisRune : Z := 8943.   (* U+22EF *)

Definition truncate (in_ : string) (l : Z) : option string :=
  let fromStart := l <? 0 in
  let l := if l <? 0 then neg l else l in
  let inLen := Z.of_nat (List.length (runes in_)) in
  if inLen <=? l then Some in_
  else if fromStart then
    match sliceFrom (runes in_) (add (sub inLen l) 1) with
    | Some rs => Some (ellipsis +:+ stringOfRunes rs)
    | None => None
    end
  else
    match sliceTo (runes in_) (sub l 1) with
    | Some rs => Some (stringOfRunes rs +:+ ellipsis)
    | None => None
    end.

(** ** Outputs

    What a module hands to the bar.  Text whose formatting is done by a
    library ([time.Format], [%f] verbs, byte sizes) is kept as the format
    and its arguments. *)

Inductive Arg :=
| ArgInt (n : Z)
| ArgStr (s : string)
| ArgFloat (x : float)
| ArgDuration (d : Z)   (* a [time.Duration] in nanoseconds, of which the
                           format prints hours, minutes or seconds; this
                           covers [formatMediaTime] *)
| ArgTime (layout : string) (t : Z).

Inductive Node :=
| Icon (name : string)
| Text (s : string)
| Textf (format : string) (args : list Arg)
| Value (formatter : string) (x : float)    (* [format.IBytesize(x)] *)
| Styled (style : string) (n : Node).

Inductive Color :=
| Hex (rgb : string)
| Scheme (name : string).

(** What a left click on a segment runs. *)
Inductive Command :=
| Toggle (modeKey : string)    (* [mainModalController.Toggle(modeKey)] *)
| RunLeft (cmd : string).      (* [click.RunLeft(cmd)] *)

Record Segment := mkSegment {
  nodes : list Node;
  color : option Color;
  urgent : bool;
  onClick : option Command
}.

(** A [bar.Output]: [Nil] is the nil interface value; [Out every segs] is a
    group of segments, re-rendered every [every] nanoseconds when timed. *)
Inductive Output :=
| Nil
| Out (every : option Z) (segs : list Segment).

Definition Pango (ns : list Node) : Segment := mkSegment ns None false None.
Definition OnClick (s : Segment) (c : Command) : Segment :=
  mkSegment (nodes s) (color s) (urgent s) (Some c).
Definition setColor (c : option Color) (s : Segment) : Segment :=
  mkSegment (nodes s) c (urgent s) (onClick s).
Definition setUrgent (u : bool) (s : Segment) : Segment :=
  mkSegment (nodes s) (color s) u (onClick s).
Definition Group (segs : list Segment) : Output := Out None segs.
Definition single (s : Segment) : Output := Out None [s].

Definition second : Z := 1000000000.
Definition minute : Z := 60 * second.

Definition spacer : Node := Styled "XSmall" (Text " ").

Definition makeIconOutput (key : string) : Segment :=
  Pango [spacer; Icon key; spacer].

Fixpoint firstColor (keys : list string) (color : list bool) : option string :=
  match keys, color with
  | k :: keys', c :: color' => if c then Some k else firstColor keys' color'
  | _, _ => None
  end.

Definition threshold (out : Segment) (urgent : bool) (color : list bool)
  : Segment :=
  if urgent then setUrgent true out
  else match firstColor ["bad"; "degraded"; "good"] color with
       | Some c => setColor (Some (Scheme c)) out
       | None => out
       end.

(** [%d] of an [int]. *)
Definition itoa (n : Z) : string := NilZero.string_of_int (Z.to_int n).

(** ** The media module *)

Module media.
Inductive PlaybackStatus := Disconnected | Playing | Paused | Stopped.
Record Info := mkInfo {
  PlaybackStatus_ : PlaybackStatus;
  Artist : string;
  Title : string;
  Length : Z;
  Position : Z
}.
Definition eqb (a b : PlaybackStatus) : bool :=
  match a, b with
  | Disconnected, Disconnected | Playing, Playing
  | Paused, Paused | Stopped, Stopped => true
  | _, _ => false
  end.
End media.

Definition makeMediaIconAndPosition (m : media.Info) : list Node :=
  let iconAndPosition := [Icon "mdi-music"] in
  let iconAndPosition :=
    if media.eqb (media.PlaybackStatus_ m) media.Playing
    then iconAndPosition
         ++ [spacer; Textf "%s/" [ArgDuration (media.Position m)]]
    else iconAndPosition in
  if media.eqb (media.PlaybackStatus_ m) media.Paused
     || media.eqb (media.PlaybackStatus_ m) media.Playing
  then iconAndPosition ++ [spacer; Textf "%s" [ArgDuration (media.Length m)]]
  else iconAndPosition.

(** The artist and title as [mediaFormatFunc] cuts them; [None] when one of
    the [truncate] calls panics. *)
Definition mediaArtistTitle (m : media.Info) : option (string * string) :=
  match truncate (media.Artist m) 35 with
  | None => None
  | Some artist =>
    match truncate (media.Title m) (sub 70 (len artist)) with
    | None => None
    | Some title =>
      if len title <? 35 then
        match truncate (media.Artist m) (sub 35 (len title)) with
        | None => None
        | Some artist' => Some (artist', title)
        end
      else Some (artist, title)
    end
  end.

Definition mediaFormatFunc (m : media.Info) : option Output :=
  if media.eqb (media.PlaybackStatus_ m) media.Stopped
     || media.eqb (media.PlaybackStatus_ m) media.Disconnected
  then Some Nil
  else
    match mediaArtistTitle m with
    | None => None
    | Some (artist, title) =>
      let every :=
        if media.eqb (media.PlaybackStatus_ m) media.Playing
        then Some second else None in
      Some (Out every [Pango (makeMediaIconAndPosition m);
                       Pango [Text artist; Text " - "; Text title]])
    end.

(** ** The modules of the bar *)

(** The [bar.Module] values [main] builds, by the variable that holds them;
    [split.New] yields the two halves of one module. *)
Inductive BarModule :=
| localdate | localtime
| tzClock (lbl tzName : string)
| battSummary | battDetail
| wifiName | wifiDetails
| vol | wthr | kubeContext | kubeNs
| loadAvg | loadAvgDetail | uptime | freeMem | swapMem | temp
| netsp (iface : string) | net
| homeDiskspace | rootDiskspace
| mainDiskio (dev : string)
| mediaSummary | mediaDetail
| modalGroup.

(** ** The modal group ([barista.run/group/modal]) *)

Module modal.

(** Modelled from the spec: the states of the Modal Controller, section
    4.4; the implementation is in the barista library, outside this
    repository's sources. *)
Inductive State :=
| Collapsed
| Expanded (modeKey : string).

(** Modelled from the spec: a Mode is an optional override Segment, an
    ordered list of summary Modules and an ordered list of detail Modules
    (section 3). *)
Record Mode := mkMode {
  override : option Segment;
  summary : list BarModule;
  detail : list BarModule
}.

(** Modelled from the spec: the registry of Modes in registration order,
    as the group under construction holds it. *)
Definition Modal := list (string * Mode).

(** Modelled from the spec: the ModalState of section 3, which Mode is
    expanded together with the Modes and their last-set overrides. *)
Record Controller := mkController {
  current : State;
  modes : Modal
}.

(** Modelled from the spec: a fresh group has no Mode. *)
Definition New : Modal := [].

(** Modelled from the spec: registration of a Mode under a key. *)
Definition Mode_ (key : string) (m : Modal) : Modal :=
  m ++ [(key, mkMode None [] [])].

(** Modelled from the spec: a change applied to the Mode of a key. *)
Definition onMode (key : string) (f : Mode -> Mode) (m : Modal) : Modal :=
  map (fun e => if String.eqb (fst e) key then (fst e, f (snd e)) else e) m.

(** Modelled from the spec: a Mode with its override Segment replaced, its
    summary and detail lists kept. *)
Definition withOverride (seg : option Segment) (md : Mode) : Mode :=
  mkMode seg (summary md) (detail md).

(** Modelled from the spec: modules added to the summary list ([Summary])
    or to the detail list ([Detail]) of a Mode; [Add], which the spec does
    not describe, is taken to add to both. *)
Definition Summary (key : string) (ms : list BarModule) : Modal -> Modal :=
  onMode key (fun md => mkMode (override md) (summary md ++ ms) (detail md)).
Definition Detail (key : string) (ms : list BarModule) : Modal -> Modal :=
  onMode key (fun md => mkMode (override md) (summary md) (detail md ++ ms)).
Definition Add (key : string) (ms : list BarModule) : Modal -> Modal :=
  onMode key (fun md =>
    mkMode (override md) (summary md ++ ms) (detail md ++ ms)).

(** Modelled from the spec: [Build] yields the controller in its initial
    state, Collapsed. *)
Definition Build (m : Modal) : BarModule * Controller :=
  (modalGroup, mkController Collapsed m).

(** Modelled from the spec: whether the state is Expanded(key). *)
Definition isExpanded (c : Controller) (key : string) : bool :=
  match current c with
  | Expanded k => String.eqb k key
  | Collapsed => false
  end.

(** Modelled from the spec: toggle(modeKey), if currently
    Expanded(modeKey) go to Collapsed, otherwise go to Expanded(modeKey). *)
Definition Toggle (key : string) (c : Controller) : Controller :=
  if isExpanded c key then mkController Collapsed (modes c)
  else mkController (Expanded key) (modes c).

(** Modelled from the spec: setOverride(modeKey, segment) updates that
    Mode's override Segment without changing the current state. *)
Definition SetOutput (key : string) (seg : option Segment) (c : Controller)
  : Controller :=
  mkController (current c) (onMode key (withOverride seg) (modes c)).

(** The keys of the registered Modes, and the Mode of a key. *)
Definition keys (m : Modal) : list string := map fst m.

Fixpoint lookup (key : string) (m : Modal) : option Mode :=
  match m with
  | [] => None
  | (k, md) :: rest => if String.eqb k key then Some md else lookup key rest
  end.

(** The registered Modes that are expanded. *)
Definition expandedModes (c : Controller) : list string :=
  filter (isExpanded c) (keys (modes c)).

End modal.

(** A left click runs the handler of the segment against the shared
    [mainModalController]. *)
Definition click (cmd : Command) (c : modal.Controller) : modal.Controller :=
  match cmd with
  | Toggle key => modal.Toggle key c
  | RunLeft _ => c
  end.

(** The mode keys the click handlers of an output toggle. *)
Definition toggled (s : Segment) : list string :=
  match onClick s with
  | Some (Toggle key) => [key]
  | _ => []
  end.

Definition toggleKeys (o : Output) : list string :=
  match o with
  | Nil => []
  | Out _ segs => flat_map toggled segs
  end.

(** ** Output functions of the modules

    A function that calls [mainModalController.SetOutput] takes the
    controller and returns it with the output. *)

Module battery.
Inductive Status :=
| Disconnected | Charging | Discharging | Full | NotCharging | Unknown.
Record Info := mkInfo {
  Status_ : Status;
  RemainingPct : Z;
  RemainingTime : Z;
  EnergyNow : float;
  EnergyFull : float;
  SignedPower : float
}.
End battery.

Definition batteryIconName (i : battery.Info) : string :=
  let iconName := "battery" in
  let iconName :=
    match battery.Status_ i with
    | battery.Charging => iconName +:+ "-charging"
    | _ => iconName
    end in
  let tenth := Z.quot (battery.RemainingPct i) 10 in
  if tenth =? 0 then iconName +:+ "-outline"
  else if tenth <? 10 then iconName +:+ "-" +:+ itoa tenth +:+ "0"
  else iconName.

Definition batteryColor (pct : Z) (s : Segment) : Segment :=
  if pct <=? 5 then setUrgent true s
  else if pct <=? 25 then setColor (Some (Hex "#FF5555")) s
  else if pct <=? 50 then setColor (Some (Hex "#FFB86C")) s
  else if pct <=? 100 then setColor (Some (Hex "#50FA7B")) s
  else s.

Definition batteryOutput (i : battery.Info) (c : modal.Controller)
  : modal.Controller * Output :=
  match battery.Status_ i with
  | battery.Disconnected | battery.Unknown => (c, Nil)
  | _ =>
    let iconName := batteryIconName i in
    let c := modal.SetOutput "battery"
               (Some (makeIconOutput ("mdi-" +:+ iconName))) c in
    let rem := battery.RemainingTime i in
    let out :=
      [ OnClick (Pango [Icon ("mdi-" +:+ iconName); spacer;
                        Textf "%d:%02d" [ArgDuration rem; ArgDuration rem]])
                (Toggle "battery");
        OnClick (Pango [Icon ("mdi-" +:+ iconName);
                        Textf "%d%%" [ArgInt (battery.RemainingPct i)];
                        spacer;
                        Textf "(%d:%02d)" [ArgDuration rem; ArgDuration rem]])
                (Toggle "battery");
        Pango [Textf "%4.1f/%4.1f" [ArgFloat (battery.EnergyNow i);
                                    ArgFloat (battery.EnergyFull i)];
               Styled "Smaller" (Text "Wh")];
        Pango [Textf "% +6.2f" [ArgFloat (battery.SignedPower i)];
               Styled "Smaller" (Text "W")] ] in
    (c, Group (map (batteryColor (battery.RemainingPct i)) out))
  end.

Module wlan.
Record Info := mkInfo {
  Connecting : bool;
  Connected : bool;
  SSID : string;
  Frequency : float;
  AccessPointMAC : string
}.
End wlan.

Definition wlanOutput (i : wlan.Info) (c : modal.Controller)
  : modal.Controller * Output :=
  if negb (wlan.Connecting i) && negb (wlan.Connected i) then
    (modal.SetOutput "network" (Some (makeIconOutput "mdi-ethernet")) c, Nil)
  else
    let c := modal.SetOutput "network" (Some (makeIconOutput "mdi-wifi")) c in
    if wlan.Connecting i then
      (c, single (setColor (Some (Scheme "degraded"))
                           (Pango [Icon "mdi-wifi"; Text "..."])))
    else
      (c, Group
        [ OnClick (Pango [Icon "mdi-wifi"; spacer; Text (wlan.SSID i)])
                  (Toggle "network");
          Pango [Icon "mdi-wifi"; spacer; Text (wlan.SSID i)];
          Pango [Textf " %2.1f Ghz" [ArgFloat (wlan.Frequency i)]];
          Pango [Icon "mdi-access-point"; spacer;
                 Text (wlan.AccessPointMAC i)] ]).

(** Times are nanoseconds counted from Go's zero [time.Time]. *)
Definition IsZero (t : Z) : bool := t =? 0.
Definition After (t u : Z) : bool := u <? t.
Definition Before (t u : Z) : bool := t <? u.

Module weather.
Inductive Condition :=
| Thunderstorm | TropicalStorm | Hurricane | Drizzle | Hail | Rain | Snow
| Sleet | Mist | Smoke | Whirls | Haze | Fog | Clear | PartlyCloudy
| Cloudy | Overcast | Tornado | Windy
| OtherCondition.        (* a condition the switch does not name *)
Record Weather := mkWeather {
  Condition_ : Condition;
  Description : string;
  Temperature : float;     (* Celsius *)
  WindSpeed : float;       (* miles per hour *)
  WindDirection : Z;
  Humidity : float;
  Sunrise : Z;
  Sunset : Z;
  Attribution : string
}.
End weather.

Definition weatherIconName (w : weather.Weather) (now : Z) : string :=
  let iconName :=
    match weather.Condition_ w with
    | weather.Thunderstorm | weather.TropicalStorm | weather.Hurricane =>
      "stormy"
    | weather.Drizzle | weather.Hail => "shower"
    | weather.Rain => "downpour"
    | weather.Snow | weather.Sleet => "snow"
    | weather.Mist | weather.Smoke | weather.Whirls | weather.Haze
    | weather.Fog => "windy-cloudy"
    | weather.Clear =>
      if negb (IsZero (weather.Sunset w)) && After now (weather.Sunset w)
      then "night"
      else if negb (IsZero (weather.Sunrise w))
              && Before now (weather.Sunrise w)
      then "night"
      else "sunny"
    | weather.PartlyCloudy => "partly-sunny"
    | weather.Cloudy | weather.Overcast => "cloudy"
    | weather.Tornado | weather.Windy => "windy"
    | weather.OtherCondition => EmptyString
    end in
  if String.eqb iconName EmptyString then "warning-outline"
  else "weather-" +:+ iconName.

Definition weatherOutput (w : weather.Weather) (now : Z)
  (c : modal.Controller) : modal.Controller * Output :=
  let iconName := weatherIconName w now in
  let c := modal.SetOutput "weather"
             (Some (makeIconOutput ("mdi-" +:+ iconName))) c in
  (c, Group
    [ Pango [Icon ("mdi-" +:+ iconName); spacer;
             Textf "%.1f℃" [ArgFloat (weather.Temperature w)]];
      Pango [Text (weather.Description w)];
      Pango [Styled "Alpha(0.8)" (Icon "mdi-flag-variant-outline"); spacer;
             Textf "%0.fmph %s" [ArgFloat (weather.WindSpeed w);
                                 ArgInt (weather.WindDirection w)]];
      Pango [Styled "Small" (Styled "Alpha(0.6)" (Icon "fa-tint")); spacer;
             Textf "%0.f%%"
               [ArgFloat (PrimFloat.mul (weather.Humidity w) 100%float)]];
      Pango [Styled "Alpha(0.8)" (Icon "mdi-weather-sunset-up"); spacer;
             Textf "%s" [ArgTime "15:04" (weather.Sunrise w)]; spacer;
             Styled "Alpha(0.8)" (Icon "mdi-weather-sunset-down"); spacer;
             Textf "%s" [ArgTime "15:04" (weather.Sunset w)]];
      Pango [Styled "XSmall"
               (Textf "provided by %s" [ArgStr (weather.Attribution w)])] ]).

Definition localdateOutput (now : Z) : Output :=
  single (OnClick (Pango [Icon "mdi-calendar-today"; spacer;
                          Textf "%s" [ArgTime "Mon Jan 2" now]])
                  (RunLeft "gsimplecal")).

Definition localtimeOutput (now : Z) : Output :=
  single (OnClick (Pango [Textf "%s" [ArgTime "15:04:05" now]])
                  (Toggle "timezones")).

Definition tzClockOutput (lbl : string) (now : Z) : Output :=
  single (Pango [Styled "Smaller" (Text lbl); spacer;
                 Textf "%s" [ArgTime "15:04" now]]).

Module volume.
Record Volume := mkVolume { Mute : bool; Pct : Z }.
End volume.

Definition volOutput (v : volume.Volume) : Output :=
  if volume.Mute v then
    single (setColor (Some (Scheme "degraded"))
                     (Pango [Icon "mdi-volume-off"]))
  else
    let pct := volume.Pct v in
    let iconName :=
      if 66 <? pct then "high" else if 33 <? pct then "low" else "mute" in
    single (Pango [Icon ("mdi-volume-" +:+ iconName); spacer;
                   Textf "%2d%%" [ArgInt pct]]).

Definition kubeContextOutput (context : string) : Output :=
  single (OnClick (Pango [Icon "mdi-ship-wheel"; spacer; Textf context []])
                  (Toggle "kubeContext")).

Definition kubeNsOutput (context : string) : Output :=
  single (Pango [Textf "Namespace: %s" [ArgStr context]]).

Module sysinfo.
Record Info := mkInfo {
  Loads0 : float;
  Loads1 : float;
  Loads2 : float;
  Uptime : Z
}.
End sysinfo.

Definition gt (x y : float) : bool := PrimFloat.ltb y x.
Definition lt (x y : float) : bool := PrimFloat.ltb x y.

Definition loadAvgOutput (s : sysinfo.Info) : Output :=
  let out := Pango [Icon "mdi-desktop-tower"; spacer;
                    Textf "%0.2f" [ArgFloat (sysinfo.Loads0 s)]] in
  if sysinfo.Uptime s <? 10 * minute then single out
  else
    let l0 := sysinfo.Loads0 s in
    let l2 := sysinfo.Loads2 s in
    let out := threshold out
                 (gt l0 128%float || gt l2 64%float)
                 [gt l0 64%float || gt l2 32%float;
                  gt l0 32%float || gt l2 16%float] in
    single (OnClick out (Toggle "sysinfo")).

Definition loadAvgDetailOutput (s : sysinfo.Info) : Output :=
  single (Pango [Styled "Smaller"
                   (Textf "%0.2f %0.2f" [ArgFloat (sysinfo.Loads1 s);
                                         ArgFloat (sysinfo.Loads2 s)])]).

(** [float64(n)] for an [int64], and [Duration.Hours]. *)
Definition float64 (n : Z) : float :=
  if n <? 0 then PrimFloat.opp (PrimFloat.of_uint63 (Uint63.of_Z (- n)))
  else PrimFloat.of_uint63 (Uint63.of_Z n).

Definition hour : Z := 60 * minute.

Definition Hours (d : Z) : float :=
  PrimFloat.add (float64 (Z.quot d hour))
                (PrimFloat.div (float64 (Z.rem d hour)) (float64 hour)).

Definition uptimeOutput (s : sysinfo.Info) : Output :=
  let u := sysinfo.Uptime s in
  let uptimeOut :=
    if lt (Hours u) 24%float
    then Textf "%d:%02d" [ArgDuration u; ArgDuration u]
    else Textf "%dd%02dh" [ArgDuration u; ArgDuration u] in
  single (Pango [Icon "mdi-weather-sunset-up"; spacer; uptimeOut]).

Module meminfo.
Record Info := mkInfo {
  AvailableGigabytes : float;
  SwapUsed : float;          (* [m["SwapTotal"] - m["SwapFree"]] *)
  SwapFreeFrac : float
}.
End meminfo.

Definition freeMemOutput (m : meminfo.Info) : Output :=
  let freeGigs := meminfo.AvailableGigabytes m in
  let out := Pango [Icon "mdi-memory"; spacer; Value "IBytesize" freeGigs] in
  let out := threshold out (lt freeGigs 0.5%float)
               [lt freeGigs 1%float; lt freeGigs 2%float;
                gt freeGigs 12%float] in
  single (OnClick out (Toggle "sysinfo")).

Definition swapMemOutput (m : meminfo.Info) : Output :=
  single (Pango [Icon "mdi-swap-horizontal"; spacer;
                 Value "IBytesize" (meminfo.SwapUsed m);
                 Styled "Small"
                   (Textf "(%2.0f%%)"
                      [ArgFloat (PrimFloat.mul
                         (PrimFloat.sub 1%float (meminfo.SwapFreeFrac m))
                         100%float)])]).

Definition tempOutput (celsius : float) : Output :=
  let out := Pango [Icon "mdi-fan"; spacer;
                    Textf "%2d℃" [ArgFloat celsius]] in
  single (threshold out (gt celsius 90%float)
            [gt celsius 70%float; gt celsius 60%float]).

Module netspeed.
Record Speeds := mkSpeeds { Tx : float; Rx : float }.
End netspeed.

Definition netspOutput (s : netspeed.Speeds) : Output :=
  single (Pango [Icon "mdi-upload";
                 Textf "%7s" [ArgFloat (netspeed.Tx s)];
                 Styled "Small" (Text " ");
                 Icon "mdi-download";
                 Textf "%7s" [ArgFloat (netspeed.Rx s)]]).

Module netinfo.
Record State := mkState {
  Enabled : bool;
  Connecting : bool;
  Name : string;
  IPs : list string
}.
End netinfo.

Definition netOutput (i : netinfo.State) : Output :=
  if negb (netinfo.Enabled i) then Nil
  else
    if netinfo.Connecting i || (Z.of_nat (List.length (netinfo.IPs i)) <? 1)
    then single (setColor (Some (Scheme "degraded"))
                          (Pango [Text (netinfo.Name i)]))
    else Group [Pango [Text (netinfo.Name i)];
                Pango [Textf "%s"
                         [ArgStr (nth 0 (netinfo.IPs i) EmptyString)]]].

Module diskspace.
Record Info := mkInfo {
  AvailableGigabytes : float;
  AvailFrac : float
}.
End diskspace.

Definition formatDiskSpace (i : diskspace.Info) (icon : string) : Output :=
  let out := Pango [Icon icon; spacer;
                    Value "IBytesize" (diskspace.AvailableGigabytes i)] in
  single (threshold out
            (lt (diskspace.AvailableGigabytes i) 1%float)
            [lt (diskspace.AvailFrac i) 0.05%float;
             lt (diskspace.AvailFrac i) 0.1%float]).

Definition mainDiskioOutput (total : float) : Output :=
  single (Pango [Icon "mdi-swap-vertical"; spacer; Value "IByterate" total]).

(** One delivery of a value to the output function of a module. *)
Inductive Update :=
| onLocaldate (now : Z)
| onLocaltime (now : Z)
| onTzClock (lbl : string) (now : Z)
| onBattery (i : battery.Info)
| onWlan (i : wlan.Info)
| onVol (v : volume.Volume)
| onWthr (w : weather.Weather) (now : Z)
| onKubeContext (context : string)
| onKubeNs (context : string)
| onLoadAvg (s : sysinfo.Info)
| onLoadAvgDetail (s : sysinfo.Info)
| onUptime (s : sysinfo.Info)
| onFreeMem (m : meminfo.Info)
| onSwapMem (m : meminfo.Info)
| onTemp (celsius : float)
| onNetsp (s : netspeed.Speeds)
| onNet (i : netinfo.State)
| onHomeDiskspace (i : diskspace.Info)
| onRootDiskspace (i : diskspace.Info)
| onMainDiskio (total : float)
| onMedia (m : media.Info).

(** The update path of a module: the controller after the call and the
    output, or [None] when the output function panics. *)
Definition update (u : Update) (c : modal.Controller)
  : option (modal.Controller * Output) :=
  match u with
  | onLocaldate now => Some (c, localdateOutput now)
  | onLocaltime now => Some (c, localtimeOutput now)
  | onTzClock lbl now => Some (c, tzClockOutput lbl now)
  | onBattery i => Some (batteryOutput i c)
  | onWlan i => Some (wlanOutput i c)
  | onVol v => Some (c, volOutput v)
  | onWthr w now => Some (weatherOutput w now c)
  | onKubeContext context => Some (c, kubeContextOutput context)
  | onKubeNs context => Some (c, kubeNsOutput context)
  | onLoadAvg s => Some (c, loadAvgOutput s)
  | onLoadAvgDetail s => Some (c, loadAvgDetailOutput s)
  | onUptime s => Some (c, uptimeOutput s)
  | onFreeMem m => Some (c, freeMemOutput m)
  | onSwapMem m => Some (c, swapMemOutput m)
  | onTemp celsius => Some (c, tempOutput celsius)
  | onNetsp s => Some (c, netspOutput s)
  | onNet i => Some (c, netOutput i)
  | onHomeDiskspace i => Some (c, formatDiskSpace i "mdi-home-outline")
  | onRootDiskspace i => Some (c, formatDiskSpace i "mdi-harddisk")
  | onMainDiskio total => Some (c, mainDiskioOutput total)
  | onMedia m =>
    match mediaFormatFunc m with
    | Some o => Some (c, o)
    | None => None
    end
  end.

(** ** [main]

    [main] talks to the operating system and to the barista library.  The
    answers of the outside world are the fields of [Env]; every call with an
    effect is recorded, in order, in the trace. *)

Record User := mkUser { HomeDir : string; Username : string }.

Record Env := mkEnv {
  userCurrent : option User;                (* [user.Current()] or error *)
  Getuid : Z;
  Join : list string -> string;             (* [filepath.Join] *)
  TrimSpace : string -> string;             (* [strings.TrimSpace] *)
  schemeSet : string -> bool;               (* [colors.Scheme(name) != nil] *)
  keyringGet : option string;               (* [keyring.Get] or error *)
  DecodeString : string -> option string;   (* [base64.RawURLEncoding] *)
  EncodeToString : string -> string;
  randRead : string + string;               (* 64 random bytes, or the error *)
  ZoneByName : string -> bool;              (* [clock.ZoneByName] succeeds *)
  execOutput : list string -> string;       (* [exec.Command(...).Output()] *)
  netlinkName : string                      (* [netlink.Any().Get().Name] *)
}.

Inductive Event :=
| MdiLoad (path : string)
| LoadBarConfig
| ColorsSet (name rgb : string)
| KeyringGet (service username : string)
| KeyringSet (service username secret : string)
| RandRead
| SetEncryptionKey (key : string)
| Exec (args : list string)
| Construct (m : BarModule)         (* a module is built from its source *)
| NetlinkAny                        (* [netlink.Any()]: a subscription *)
| SubGet                            (* [sub.Get()] *)
| SubUnsubscribe                    (* [sub.Unsubscribe()] *)
| ModalNew
| ModalMode (key : string)          (* [mainModal.Mode(key)] *)
| ModalBuild
| Run (ms : list BarModule).        (* [barista.Run]: the render loop *)

Inductive Res (A : Type) :=
| Done (a : A) (trace : list Event)
| Panicked (msg : string) (trace : list Event).
Arguments Done {A} a trace.
Arguments Panicked {A} msg trace.

Definition M (A : Type) : Type := Env -> list Event -> Res A.

Definition ret {A} (a : A) : M A := fun _ tr => Done a tr.
Definition bind {A B} (m : M A) (k : A -> M B) : M B :=
  fun env tr =>
    match m env tr with
    | Done a tr' => k a env tr'
    | Panicked msg tr' => Panicked msg tr'
    end.
Definition panic {A} (msg : string) : M A := fun _ tr => Panicked msg tr.
Definition emit (e : Event) : M unit := fun _ tr => Done tt (tr ++ [e]).
Definition ask {A} (f : Env -> A) : M A := fun env tr => Done (f env) tr.

Notation "x <- m ;; k" := (bind m (fun x => k))
  (at level 61, m at next level, right associativity).
Notation "m ;; k" := (bind m (fun _ => k))
  (at level 61, right associativity).

Definition traceOf {A} (r : Res A) : list Event :=
  match r with
  | Done _ tr => tr
  | Panicked _ tr => tr
  end.

Definition panicked {A} (r : Res A) : bool :=
  match r with
  | Done _ _ => false
  | Panicked _ _ => true
  end.

Definition home (path : list string) : M string :=
  usr <- ask userCurrent ;;
  match usr with
  | None => panic "user: Current"
  | Some u =>
    join <- ask Join ;;
    ret (join (HomeDir u :: path))
  end.

(** [strings.Split(s, sep)] for a separator of one byte. *)
Fixpoint Split (s : string) (sep : ascii) : list string :=
  match s with
  | EmptyString => [EmptyString]
  | String c rest =>
    if Ascii.eqb c sep then EmptyString :: Split rest sep
    else match Split rest sep with
         | h :: t => String c h :: t
         | [] => [String c EmptyString]
         end
  end.

Definition newline : ascii := ascii_of_nat 10.
Definition space : ascii := ascii_of_nat 32.

Definition command (args : list string) : M string :=
  emit (Exec args) ;;
  out <- ask (fun env => execOutput env args) ;;
  ret out.

Definition deviceForMountPath (path : string) : M string :=
  mnt <- command ["df"; "-P"; path] ;;
  match Split mnt newline with
  | _ :: line1 :: _ =>
    let devAlias := hd EmptyString (Split line1 space) in
    dev <- command ["realpath"; devAlias] ;;
    trim <- ask TrimSpace ;;
    let devStr := trim dev in
    if negb (String.eqb devStr EmptyString) then ret devStr else ret devAlias
  | _ => ret EmptyString
  end.

(** The error [setupOauthEncryption] returns, [None] for nil. *)
Definition setupOauthEncryption : M (option string) :=
  let service := "barista-cv" in
  u <- ask userCurrent ;;
  uid <- ask Getuid ;;
  let username :=
    match u with
    | Some u => Username u
    | None => "user-" +:+ itoa uid
    end in
  emit (KeyringGet service username) ;;
  secret <- ask keyringGet ;;
  decode <- ask DecodeString ;;
  let secretBytes :=
    match secret with
    | Some s => decode s
    | None => None
    end in
  match secretBytes with
  | Some key => emit (SetEncryptionKey key) ;; ret None
  | None =>
    emit RandRead ;;
    r <- ask randRead ;;
    match r with
    | inr err => ret (Some err)
    | inl key =>
      encode <- ask EncodeToString ;;
      emit (KeyringSet service username (encode key)) ;;
      emit (SetEncryptionKey key) ;;
      ret None
    end
  end.

Definition construct (m : BarModule) : M BarModule :=
  emit (Construct m) ;; ret m.

Definition makeTzClock (lbl tzName : string) : M BarModule :=
  ok <- ask (fun env => ZoneByName env tzName) ;;
  if ok then construct (tzClock lbl tzName)
  else panic ("unknown time zone " +:+ tzName).

(** [mainModal.Mode(key)]. *)
Definition mode (key : string) (m : modal.Modal) : M modal.Modal :=
  emit (ModalMode key) ;; ret (modal.Mode_ key m).

(** [mode.SetOutput(seg)] on a mode under construction. *)
Definition modeSetOutput (key : string) (seg : option Segment)
  : modal.Modal -> modal.Modal :=
  modal.onMode key (modal.withOverride seg).

Definition TrimPrefix (s prefix : string) : string :=
  if String.prefix prefix s
  then String.substring (String.length prefix)
         (String.length s - String.length prefix) s
  else s.

Definition main : M (list BarModule * modal.Controller) :=
  icons <- home ["projects/MaterialDesign-Webfont"] ;;
  emit (MdiLoad icons) ;;
  emit LoadBarConfig ;;
  bg <- ask (fun env => schemeSet env "background") ;;
  fg <- ask (fun env => schemeSet env "statusline") ;;
  (* the value [v] of the statusline colour is computed and not used *)
  (if fg && bg then
     emit (ColorsSet "bad" "#FF5555") ;;
     emit (ColorsSet "degraded" "#FFB86C") ;;
     emit (ColorsSet "good" "#50FA7B")
   else ret tt) ;;
  err <- setupOauthEncryption ;;
  match err with
  | Some e => panic ("Could not setup oauth token encryption: " +:+ e)
  | None =>
    localdate <- construct localdate ;;
    localtime <- construct localtime ;;
    battSummary <- construct battSummary ;;
    battDetail <- construct battDetail ;;
    wifiName <- construct wifiName ;;
    wifiDetails <- construct wifiDetails ;;
    vol <- construct vol ;;
    wthr <- construct wthr ;;
    kubeContext <- construct kubeContext ;;
    kubeNs <- construct kubeNs ;;
    loadAvg <- construct loadAvg ;;
    loadAvgDetail <- construct loadAvgDetail ;;
    uptime <- construct uptime ;;
    freeMem <- construct freeMem ;;
    swapMem <- construct swapMem ;;
    temp <- construct temp ;;
    emit NetlinkAny ;;
    emit SubGet ;;
    iface <- ask netlinkName ;;
    emit SubUnsubscribe ;;
    netsp <- construct (netsp iface) ;;
    net <- construct net ;;
    rootDev <- deviceForMountPath "/" ;;
    h <- home [] ;;
    homeDev <- deviceForMountPath h ;;
    homeDisk <-
      (if negb (String.eqb homeDev rootDev) then
         _ <- home [] ;;
         m <- construct homeDiskspace ;;
         ret (Some m)
       else ret None) ;;
    rootDiskspace <- construct rootDiskspace ;;
    mainDiskio <- construct (mainDiskio (TrimPrefix rootDev "/dev/")) ;;
    mediaSummary <- construct mediaSummary ;;
    mediaDetail <- construct mediaDetail ;;
    emit ModalNew ;;
    let mainModal := modal.New in
    mainModal <- mode "kubeContext" mainModal ;;
    let mainModal :=
      modeSetOutput "kubeContext" (Some (makeIconOutput "mdi-ship-wheel"))
        mainModal in
    let mainModal := modal.Add "kubeContext" [kubeContext] mainModal in
    let mainModal := modal.Detail "kubeContext" [kubeNs] mainModal in
    mainModal <- mode "network" mainModal ;;
    let mainModal :=
      modeSetOutput "network" (Some (makeIconOutput "mdi-ethernet"))
        mainModal in
    let mainModal := modal.Summary "network" [wifiName] mainModal in
    let mainModal :=
      modal.Detail "network" [wifiDetails; netsp; net] mainModal in
    mainModal <- mode "media" mainModal ;;
    let mainModal :=
      modeSetOutput "media" (Some (makeIconOutput "mdi-music")) mainModal in
    let mainModal := modal.Add "media" [vol; mediaSummary] mainModal in
    let mainModal := modal.Detail "media" [mediaDetail] mainModal in
    mainModal <- mode "sysinfo" mainModal ;;
    let mainModal :=
      modeSetOutput "sysinfo" (Some (makeIconOutput "mdi-chart-line-stacked"))
        mainModal in
    let mainModal := modal.Detail "sysinfo" [loadAvg] mainModal in
    let mainModal :=
      modal.Detail "sysinfo" [loadAvgDetail; uptime] mainModal in
    let mainModal := modal.Detail "sysinfo" [freeMem] mainModal in
    let mainModal := modal.Detail "sysinfo" [swapMem; temp] mainModal in
    let mainModal := modal.Detail "sysinfo" [mainDiskio] mainModal in
    let mainModal := modal.Add "sysinfo" [rootDiskspace] mainModal in
    let mainModal :=
      match homeDisk with
      | Some m => modal.Add "sysinfo" [m] mainModal
      | None => mainModal
      end in
    mainModal <- mode "battery" mainModal ;;
    let mainModal := modeSetOutput "battery" None mainModal in
    let mainModal := modal.Summary "battery" [battSummary] mainModal in
    let mainModal := modal.Detail "battery" [battDetail] mainModal in
    mainModal <- mode "weather" mainModal ;;
    let mainModal :=
      modeSetOutput "weather" (Some (makeIconOutput "mdi-alert-box-outline"))
        mainModal in
    let mainModal := modal.Detail "weather" [wthr] mainModal in
    mainModal <- mode "timezones" mainModal ;;
    let mainModal :=
      modeSetOutput "timezones" (Some (makeIconOutput "mdi-clock-outline"))
        mainModal in
    tz <- makeTzClock "Los Angeles" "America/Los_Angeles" ;;
    let mainModal := modal.Detail "timezones" [tz] mainModal in
    tz <- makeTzClock "New York" "America/New_York" ;;
    let mainModal := modal.Detail "timezones" [tz] mainModal in
    tz <- makeTzClock "UTC" "Etc/UTC" ;;
    let mainModal := modal.Detail "timezones" [tz] mainModal in
    tz <- makeTzClock "Copenhagen" "Europe/Copenhagen" ;;
    let mainModal := modal.Detail "timezones" [tz] mainModal in
    tz <- makeTzClock "Tokyo" "Asia/Tokyo" ;;
    let mainModal := modal.Detail "timezones" [tz] mainModal in
    emit ModalBuild ;;
    let (mm, mainModalController) := modal.Build mainModal in
    emit (Run [mm; localdate; localtime]) ;;
    ret ([mm; localdate; localtime], mainModalController)
  end.

(** The time zones [main] asks for. *)
Definition timezones : list string :=
  ["America/Los_Angeles"; "America/New_York"; "Etc/UTC";
   "Europe/Copenhagen"; "Asia/Tokyo"].

(** An environment in which every lookup succeeds. *)
Definition sampleEnv : Env :=
  mkEnv (Some (mkUser "/home/cv" "cv")) 1000
        (String.concat "/") (fun s => s) (fun _ => true)
        (Some "c2VjcmV0") (fun s => Some s) (fun s => s) (inl "key")
        (fun _ => true) (fun _ => EmptyString) "wlp3s0".

(** [n] copies of a string, for test inputs. *)
Definition rep (n : nat) (s : string) : string :=
  String.concat EmptyString (repeat s n).

(** Number of runes of a string, [len([]rune(s))]. *)
Definition runeCount (s : string) : Z := Z.of_nat (List.length (runes s)).

(** Inputs of [mediaFormatFunc] used below: a long artist with a short
    title; an artist of 35 four-byte runes with a title of 70 letters; an
    artist of 10 two-byte runes with a title of 65 letters; an artist of 35
    two-byte runes. *)
Definition shortTitle : media.Info :=
  media.mkInfo media.Playing (rep 40 "a") "abc" 0 0.
Definition wideArtist : media.Info :=
  media.mkInfo media.Playing (rep 35 "😀") (rep 70 "x") 0 0.
Definition accentedArtist : media.Info :=
  media.mkInfo media.Paused (rep 10 "é") (rep 65 "x") 0 0.
Definition seventyBytes : media.Info :=
  media.mkInfo media.Playing (rep 35 "é") "x" 0 0.

(** ** What a trace shows

    The properties of [main] are read off its trace by a monitor, a state
    machine that is fed the events in order. *)

(** Where the one-shot read of the interface name stands: no subscription
    is open, [netlink.Any()] was called, [Get()] was called on it; [Broken]
    when anything else came before the subscription was closed. *)
Inductive SubState := Idle | Opened | Read | Broken.

Record Seen := mkSeen {
  running : bool;             (* [barista.Run] was entered *)
  oneShot : SubState;
  standing : nat;             (* subscriptions not unsubscribed *)
  built : bool;               (* [mainModal.Build()] was called *)
  registered : list string    (* keys given to [mainModal.Mode] before that *)
}.

Definition interrupt (st : SubState) : SubState :=
  match st with
  | Idle => Idle
  | _ => Broken
  end.

Definition see (s : Seen) (e : Event) : Seen :=
  match e with
  | NetlinkAny =>
    mkSeen (running s) (match oneShot s with Idle => Opened | _ => Broken end)
           (S (standing s)) (built s) (registered s)
  | SubGet =>
    mkSeen (running s) (match oneShot s with Opened => Read | _ => Broken end)
           (standing s) (built s) (registered s)
  | SubUnsubscribe =>
    mkSeen (running s) (match oneShot s with Read => Idle | _ => Broken end)
           (Nat.pred (standing s)) (built s) (registered s)
  | Run _ =>
    mkSeen true (interrupt (oneShot s)) (standing s) (built s) (registered s)
  | ModalBuild =>
    mkSeen (running s) (interrupt (oneShot s)) (standing s) true
           (registered s)
  | ModalMode key =>
    mkSeen (running s) (interrupt (oneShot s)) (standing s) (built s)
           (if built s then registered s else registered s ++ [key])
  | _ =>
    mkSeen (running s) (interrupt (oneShot s)) (standing s) (built s)
           (registered s)
  end.

Definition unseen : Seen := mkSeen false Idle 0 false [].

Definition observe (tr : list Event) : Seen := fold_left see tr unseen.

(** [exec env s m Q E]: run from a trace that shows [s], [m] returns a
    value and a trace that satisfy [Q], or panics with a trace that
    satisfies [E]. *)
Definition exec (env : Env) (s : Seen) {A} (m : M A)
  (Q : A -> Seen -> Prop) (E : Seen -> Prop) : Prop :=
  forall tr, observe tr = s ->
    match m env tr with
    | Done a tr' => Q a (observe tr')
    | Panicked _ tr' => E (observe tr')
    end.

(** The mode keys [main] registers, in order. *)
Definition modeKeys : list string :=
  ["kubeContext"; "network"; "media"; "sysinfo"; "battery"; "weather";
   "timezones"].

(** [setupOauthEncryption] returns an error. *)
Definition oauthFails (env : Env) : Prop :=
  exists tr e tr', setupOauthEncryption env tr = Done (Some e) tr'.

(** What the trace shows when [main] has entered the render loop. *)
Definition atRun : Seen := mkSeen true Idle 0 true modeKeys.

(** What holds when [main] has entered the render loop with the modules
    and the controller [r], and what holds when it has panicked. *)
Definition mainPost (env : Env) (r : list BarModule * modal.Controller)
  (s : Seen) : Prop :=
  s = atRun
  /\ ~ oauthFails env
  /\ (forall tz, In tz timezones -> ZoneByName env tz = true)
  /\ modal.current (snd r) = modal.Collapsed
  /\ modal.keys (modal.modes (snd r)) = modeKeys.

Definition mainPanic (s : Seen) : Prop :=
  running s = false /\ oneShot s = Idle /\ standing s = 0%nat.

(** Every [netlink.Any()] of the trace is followed at once by [Get()] and
    [Unsubscribe()]. *)
Definition readOnce (tr : list Event) : Prop :=
  forall pre post, tr = pre ++ NetlinkAny :: post ->
    exists post', post = SubGet :: SubUnsubscribe :: post'.

(** The mode [key] was registered before [Build()] was called. *)
Definition registeredBeforeBuild (key : string) (tr : list Event) : Prop :=
  exists pre post, tr = pre ++ ModalBuild :: post /\ In (ModalMode key) pre.

(** A sequence of clicks, oldest first. *)
Definition toggles (keys : list string) (c : modal.Controller)
  : modal.Controller :=
  fold_left (fun c key => modal.Toggle key c) keys c.

(** The mode keys the click handlers of the program toggle. *)
Definition toggledKeys : list string :=
  ["timezones"; "battery"; "network"; "kubeContext"; "sysinfo"].

(** Environments in which the set-up fails: no secret can be stored, and
    one time zone is unknown. *)
Definition noSecretEnv : Env :=
  mkEnv (Some (mkUser "/home/cv" "cv")) 1000
        (String.concat "/") (fun s => s) (fun _ => true)
        None (fun s => Some s) (fun s => s) (inr "EOF")
        (fun _ => true) (fun _ => EmptyString) "wlp3s0".

Definition noTokyoEnv : Env :=
  mkEnv (Some (mkUser "/home/cv" "cv")) 1000
        (String.concat "/") (fun s => s) (fun _ => true)
        (Some "c2VjcmV0") (fun s => Some s) (fun s => s) (inl "key")
        (fun tz => negb (String.eqb tz "Asia/Tokyo"))
        (fun _ => EmptyString) "wlp3s0".

(** ** Further notions used by the properties *)




(** The battery icons of the Material Design icon font. *)
Definition batteryIcons : list string :=
  ["battery-outline"; "battery-10"; "battery-20"; "battery-30";
   "battery-40"; "battery-50"; "battery-60"; "battery-70"; "battery-80";
   "battery-90"; "battery";
   "battery-charging-outline"; "battery-charging-10"; "battery-charging-20";
   "battery-charging-30"; "battery-charging-40"; "battery-charging-50";
   "battery-charging-60"; "battery-charging-70"; "battery-charging-80";
   "battery-charging-90"; "battery-charging"].

(** The icon that opens the first segment of an output, and the icon of the
    override segment of a mode, which [makeIconOutput] puts between two
    spacers. *)
Definition firstIcon (o : Output) : option string :=
  match o with
  | Out _ (s :: _) =>
    match nodes s with
    | Icon name :: _ => Some name
    | _ => None
    end
  | _ => None
  end.

Definition switcherIcon (c : modal.Controller) (key : string)
  : option string :=
  match modal.lookup key (modal.modes c) with
  | Some md =>
    match modal.override md with
    | Some seg =>
      match nodes seg with
      | [_; Icon name; _] => Some name
      | _ => None
      end
    | None => None
    end
  | None => None
  end.

(** A controller with the seven modes of [main], and sample readings. *)
Definition sevenModes : modal.Controller :=
  modal.mkController modal.Collapsed
    (map (fun key => (key, modal.mkMode None [] [])) modeKeys).

Definition halfCharged : battery.Info :=
  battery.mkInfo battery.Charging 57 0 0%float 0%float 0%float.

Definition justBooted : sysinfo.Info :=
  sysinfo.mkInfo 200%float 100%float 100%float (3 * minute).

Definition longUp : sysinfo.Info :=
  sysinfo.mkInfo 1%float 1%float 1%float (60 * minute).

(** The key found in the keyring, when there is one and it decodes; the
    user name the keyring is asked with. *)
Definition storedKey (env : Env) : option string :=
  match keyringGet env with
  | Some s => DecodeString env s
  | None => None
  end.

Definition keyringUser (env : Env) : string :=
  match userCurrent env with
  | Some u => Username u
  | None => "user-" +:+ itoa (Getuid env)
  end.

(** An environment with an empty keyring and a working random source. *)
Definition freshKeyEnv : Env :=
  mkEnv None 1000
        (String.concat "/") (fun s => s) (fun _ => true)
        None (fun s => Some s) (fun s => "b64:" +:+ s) (inl "random")
        (fun _ => true) (fun _ => EmptyString) "wlp3s0".


(** The value [deviceForMountPath] returns: the device of the second line
    of [df -P], resolved by [realpath] when that prints something. *)
Definition deviceOf (env : Env) (path : string) : string :=
  match Split (execOutput env ["df"; "-P"; path]) newline with
  | _ :: line1 :: _ =>
    let devAlias := hd EmptyString (Split line1 space) in
    let devStr := TrimSpace env (execOutput env ["realpath"; devAlias]) in
    if negb (String.eqb devStr EmptyString) then devStr else devAlias
  | _ => EmptyString
  end.


(** ** The start-up sequence

    A second view of the trace: the calls that build modules, read the
    interface name, register modes and start the bar, in order, with the
    calls of external commands and of the keyring left out. *)

Definition watch {S : Type} (step : S -> Event -> S) (init : S)
  (tr : list Event) : S :=
  fold_left step tr init.

Definition runs {S : Type} (step : S -> Event -> S) (init : S) (env : Env)
  (s : S) {A : Type} (m : M A) (Q : A -> S -> Prop) (E : S -> Prop)
  : Prop :=
  forall tr, watch step init tr = s ->
    match m env tr with
    | Done a tr' => Q a (watch step init tr')
    | Panicked _ tr' => E (watch step init tr')
    end.

(** Calls of external commands, the keyring and the random source. *)
Definition boring (e : Event) : bool :=
  match e with
  | Exec _ | KeyringGet _ _ | KeyringSet _ _ _ | RandRead
  | SetEncryptionKey _ => true
  | _ => false
  end.

Definition quietAt {S : Type} (step : S -> Event -> S) (s : S) : Prop :=
  forall e, boring e = true -> step s e = s.

Definition notable (e : Event) : bool :=
  match e with
  | Construct _ | NetlinkAny | SubGet | SubUnsubscribe | ModalNew
  | ModalMode _ | ModalBuild | Run _ => true
  | _ => false
  end.

Definition isRun (e : Event) : bool :=
  match e with
  | Run _ => true
  | _ => false
  end.

Record Startup := mkStartup {
  shown : list Event;         (* the notable events so far *)
  ran : bool;                 (* [barista.Run] was called *)
  afterRun : bool             (* something was called after it *)
}.

Definition note (s : Startup) (e : Event) : Startup :=
  mkStartup (if notable e then shown s ++ [e] else shown s)
            (ran s || isRun e) (afterRun s || ran s).

Definition started : Startup := mkStartup [] false false.

(** The modules built, and the arguments of [barista.Run], in a trace. *)
Definition modulesBuilt (tr : list Event) : list BarModule :=
  flat_map (fun e => match e with Construct m => [m] | _ => [] end) tr.

Definition runCalls (tr : list Event) : list (list BarModule) :=
  flat_map (fun e => match e with Run ms => [ms] | _ => [] end) tr.

(** The modules the bar can show: those given to [barista.Run] and those
    of the summary and detail lists of the modes. *)
Definition shownModules (r : list BarModule * modal.Controller)
  : list BarModule :=
  fst r
  ++ flat_map (fun e => modal.summary (snd e) ++ modal.detail (snd e))
       (modal.modes (snd r)).

(** The home directory is on another device than the root directory. *)
Definition homeSeparate (env : Env) : bool :=
  match userCurrent env with
  | Some u =>
    negb (String.eqb (deviceOf env (Join env [HomeDir u])) (deviceOf env "/"))
  | None => false
  end.

(** The three reasons for which [main] panics. *)
Definition panicCause (env : Env) : Prop :=
  userCurrent env = None
  \/ oauthFails env
  \/ exists tz, In tz timezones /\ ZoneByName env tz = false.

Definition mainStarted (env : Env) (r : list BarModule * modal.Controller)
  (s : Startup) : Prop :=
  ~ panicCause env
  /\ ran s = true /\ afterRun s = false
  /\ runCalls (shown s) = [fst r]
  /\ fst r = [modalGroup; localdate; localtime]
  /\ (forall m, In m (modulesBuilt (shown s))
                <-> In m (shownModules r) /\ m <> modalGroup)
  /\ NoDup (modulesBuilt (shown s))
  /\ (In homeDiskspace (modulesBuilt (shown s)) <-> homeSeparate env = true)
  /\ (homeSeparate env = true ->
      exists md,
        modal.lookup "sysinfo" (modal.modes (snd r)) = Some md
        /\ In homeDiskspace (modal.summary md)
        /\ In homeDiskspace (modal.detail md)).



(** * Properties *)

(** ** Integers, bytes and bit operations *)

Lemma wrap_id (z : Z) : MinInt <= z <= MaxInt -> wrap z = z.
Proof.
  unfold wrap, MinInt, MaxInt, intSize. intros H.
  rewrite Z.mod_small; lia.
Qed.

Lemma byteVal_range (c : ascii) : 0 <= byteVal c < 256.
Proof.
  unfold byteVal. pose proof (N_ascii_bounded c). lia.
Qed.

Lemma land_ones' (x k : Z) : 0 <= k -> Z.land x (2 ^ k - 1) = x mod 2 ^ k.
Proof.
  intros Hk. rewrite <- Z.land_ones by assumption.
  f_equal. rewrite Z.ones_equiv. lia.
Qed.

Lemma byteVal_toByte (x : Z) : byteVal (toByte x) = x mod 256.
Proof.
  unfold byteVal, toByte.
  change 255 with (2 ^ 8 - 1). rewrite land_ones' by lia.
  change (2 ^ 8) with 256.
  pose proof (Z.mod_pos_bound x 256 ltac:(lia)).
  rewrite N_ascii_embedding by lia.
  rewrite Z2N.id; lia.
Qed.

Lemma small_bits_above (x k n : Z) :
  0 <= x < 2 ^ k -> k <= n -> Z.testbit x n = false.
Proof.
  intros Hx Hn.
  destruct (Z.eq_dec x 0) as [->|Hx0]; [apply Z.bits_0|].
  apply Z.bits_above_log2; [lia|].
  assert (Z.log2 x < k) by (apply Z.log2_lt_pow2; lia). lia.
Qed.

(** [lor] of a multiple of [2^k] and a number below [2^k] is their sum. *)
Lemma lor_add (x y k : Z) :
  0 <= k -> x mod 2 ^ k = 0 -> 0 <= y < 2 ^ k -> Z.lor x y = x + y.
Proof.
  intros Hk Hx Hy.
  rewrite <- Z.add_lor_land.
  assert (E : Z.land x y = 0).
  { apply Z.bits_inj'. intros n Hn.
    rewrite Z.land_spec, Z.bits_0.
    destruct (Z.lt_ge_cases n k) as [Hlt|Hge].
    - assert (Ex : x = x / 2 ^ k * 2 ^ k).
      { pose proof (Z.div_mod x (2 ^ k)) as D.
        assert (2 ^ k <> 0) by (apply Z.pow_nonzero; lia). lia. }
      rewrite Ex, Z.mul_pow2_bits_low by lia. reflexivity.
    - rewrite (small_bits_above y k n) by lia. apply andb_false_r. }
  rewrite E. lia.
Qed.

(** ** UTF-8: decoding what was encoded *)

Ltac unfold_consts :=
  unfold isCont, runeError, maxRune, surrogateMin, surrogateMax, tx, t2, t3,
    t4, t5, maskx, mask2, mask3, mask4, rune1Max, rune2Max, rune3Max, locb,
    hicb in *.

Ltac to_arith :=
  change 63 with (2 ^ 6 - 1) in *; change 31 with (2 ^ 5 - 1) in *;
  change 15 with (2 ^ 4 - 1) in *; change 7 with (2 ^ 3 - 1) in *;
  rewrite ?land_ones' in * by lia;
  rewrite ?Z.shiftr_div_pow2, ?Z.shiftl_mul_pow2 in * by lia;
  change (2 ^ 3) with 8 in *; change (2 ^ 4) with 16 in *;
  change (2 ^ 5) with 32 in *; change (2 ^ 6) with 64 in *;
  change (2 ^ 12) with 4096 in *; change (2 ^ 18) with 262144 in *.

Ltac solve_bool :=
  repeat rewrite ?andb_true_iff, ?andb_false_iff, ?orb_true_iff,
    ?orb_false_iff, ?negb_true_iff, ?negb_false_iff, ?Z.ltb_lt, ?Z.leb_le,
    ?Z.ltb_ge, ?Z.leb_gt;
  intuition (try reflexivity; try discriminate; lia).

(** Decide the test of the conditional at the head of the goal. *)
Ltac head_if :=
  match goal with
  | |- (if ?c then _ else _) = _ =>
    first [ replace c with true by (symmetry; solve_bool)
          | replace c with false by (symmetry; solve_bool) ];
    cbv iota
  end.

Lemma mod_plus (c k y : Z) : 0 <= y < k -> c mod k = 0 -> (c + y) mod k = y.
Proof.
  intros Hy Hc.
  rewrite Z.add_mod by lia. rewrite Hc. simpl.
  rewrite Z.mod_mod by lia. apply Z.mod_small. assumption.
Qed.

Lemma div_range (r a b k : Z) : 0 < k -> a * k <= r < b * k -> a <= r / k < b.
Proof.
  intros Hk H. split.
  - apply Z.div_le_lower_bound; lia.
  - apply Z.div_lt_upper_bound; lia.
Qed.

Lemma encoderune_2 (r : Z) :
  rune1Max < r <= rune2Max ->
  encoderune r =
  String (toByte (192 + r / 64)) (String (toByte (128 + r mod 64)) EmptyString).
Proof.
  unfold encoderune. unfold_consts. intros H.
  rewrite (Z.mod_small r (2 ^ 32)) by lia.
  repeat head_if. to_arith.
  pose proof (div_range r 2 32 64 ltac:(lia) ltac:(lia)).
  rewrite (lor_add 192 (r / 64) 5) by (try reflexivity; lia).
  rewrite (lor_add 128 (r mod 64) 6)
    by (try reflexivity; try lia; apply Z.mod_pos_bound; lia).
  reflexivity.
Qed.

Lemma decoderune_2 (r : Z) (s : string) :
  rune1Max < r <= rune2Max ->
  decoderune (String (toByte (192 + r / 64))
                     (String (toByte (128 + r mod 64)) s)) = (r, 2%nat).
Proof.
  unfold_consts. intros H.
  pose proof (div_range r 2 32 64 ltac:(lia) ltac:(lia)) as Hq.
  pose proof (Z.mod_pos_bound r 64 ltac:(lia)) as Hm.
  pose proof (Z.div_mod r 64 ltac:(lia)) as E.
  unfold decoderune. rewrite !byteVal_toByte.
  rewrite (Z.mod_small (192 + r / 64) 256), (Z.mod_small (128 + r mod 64) 256)
    by lia.
  unfold_consts. to_arith.
  rewrite (mod_plus 192 32 (r / 64)), (mod_plus 128 64 (r mod 64))
    by (try reflexivity; lia).
  rewrite (lor_add (r / 64 * 64) (r mod 64) 6)
    by (try lia; apply Z.mod_mul; lia).
  replace (r / 64 * 64 + r mod 64) with r by lia.
  repeat head_if. reflexivity.
Qed.

Lemma encoderune_1 (r : Z) :
  0 <= r <= rune1Max -> encoderune r = String (toByte r) EmptyString.
Proof.
  unfold encoderune. unfold_consts. intros H.
  rewrite (Z.mod_small r (2 ^ 32)) by lia.
  repeat head_if. reflexivity.
Qed.

Lemma decoderune_1 (r : Z) (s : string) :
  0 <= r <= rune1Max -> decoderune (String (toByte r) s) = (r, 1%nat).
Proof.
  unfold_consts. intros H.
  unfold decoderune. rewrite byteVal_toByte, Z.mod_small by lia.
  repeat head_if. reflexivity.
Qed.

Lemma encode3_arith (r : Z) :
  rune2Max < r <= rune3Max ->
  encode3 r =
  String (toByte (224 + r / 4096))
    (String (toByte (128 + (r / 64) mod 64))
      (String (toByte (128 + r mod 64)) EmptyString)).
Proof.
  unfold encode3. unfold_consts. intros H. to_arith.
  pose proof (div_range r 0 16 4096 ltac:(lia) ltac:(lia)).
  rewrite (lor_add 224 (r / 4096) 4) by (try reflexivity; lia).
  rewrite (lor_add 128 ((r / 64) mod 64) 6)
    by (try reflexivity; try lia; apply Z.mod_pos_bound; lia).
  rewrite (lor_add 128 (r mod 64) 6)
    by (try reflexivity; try lia; apply Z.mod_pos_bound; lia).
  reflexivity.
Qed.

Lemma encoderune_3 (r : Z) :
  rune2Max < r <= rune3Max ->
  negb ((surrogateMin <=? r) && (r <=? surrogateMax)) = true ->
  encoderune r = encode3 r.
Proof.
  unfold encoderune. unfold_consts. intros H Hs.
  rewrite (Z.mod_small r (2 ^ 32)) by lia.
  destruct (r <=? 127) eqn:E1; [lia|].
  destruct (r <=? 2047) eqn:E2; [lia|].
  destruct (1114111 <? r) eqn:E3; [lia|].
  apply negb_true_iff in Hs. rewrite Hs. simpl.
  destruct (r <=? 65535) eqn:E4; [reflexivity|lia].
Qed.

Lemma decoderune_3 (r : Z) (s : string) :
  rune2Max < r <= rune3Max ->
  negb ((surrogateMin <=? r) && (r <=? surrogateMax)) = true ->
  decoderune (String (toByte (224 + r / 4096))
               (String (toByte (128 + (r / 64) mod 64))
                 (String (toByte (128 + r mod 64)) s))) = (r, 3%nat).
Proof.
  unfold_consts. intros H Hs.
  pose proof (div_range r 0 16 4096 ltac:(lia) ltac:(lia)) as Ha.
  pose proof (Z.mod_pos_bound (r / 64) 64 ltac:(lia)) as Hb.
  pose proof (Z.mod_pos_bound r 64 ltac:(lia)) as Hc.
  assert (E : r = r / 4096 * 4096 + (r / 64) mod 64 * 64 + r mod 64)
    by (Z.div_mod_to_equations; lia).
  unfold decoderune. rewrite !byteVal_toByte.
  rewrite (Z.mod_small (224 + r / 4096) 256),
    (Z.mod_small (128 + (r / 64) mod 64) 256),
    (Z.mod_small (128 + r mod 64) 256) by lia.
  unfold_consts. to_arith.
  rewrite (mod_plus 224 16 (r / 4096)), (mod_plus 128 64 ((r / 64) mod 64)),
    (mod_plus 128 64 (r mod 64)) by (try reflexivity; lia).
  rewrite (lor_add (r / 4096 * 4096) ((r / 64) mod 64 * 64) 12)
    by (try lia; apply Z.mod_mul; lia).
  rewrite (lor_add (r / 4096 * 4096 + (r / 64) mod 64 * 64) (r mod 64) 6)
    by (try lia; change (2 ^ 6) with 64; Z.div_mod_to_equations; lia).
  rewrite <- E. rewrite Hs.
  repeat head_if. reflexivity.
Qed.

Lemma encoderune_4 (r : Z) :
  rune3Max < r <= maxRune ->
  encoderune r =
  String (toByte (240 + r / 262144))
    (String (toByte (128 + (r / 4096) mod 64))
      (String (toByte (128 + (r / 64) mod 64))
        (String (toByte (128 + r mod 64)) EmptyString))).
Proof.
  unfold encoderune. unfold_consts. intros H.
  rewrite (Z.mod_small r (2 ^ 32)) by lia.
  repeat head_if. to_arith.
  pose proof (div_range r 0 8 262144 ltac:(lia) ltac:(lia)).
  rewrite (lor_add 240 (r / 262144) 3) by (try reflexivity; lia).
  rewrite (lor_add 128 ((r / 4096) mod 64) 6)
    by (try reflexivity; try lia; apply Z.mod_pos_bound; lia).
  rewrite (lor_add 128 ((r / 64) mod 64) 6)
    by (try reflexivity; try lia; apply Z.mod_pos_bound; lia).
  rewrite (lor_add 128 (r mod 64) 6)
    by (try reflexivity; try lia; apply Z.mod_pos_bound; lia).
  reflexivity.
Qed.

Lemma decoderune_4 (r : Z) (s : string) :
  rune3Max < r <= maxRune ->
  decoderune (String (toByte (240 + r / 262144))
               (String (toByte (128 + (r / 4096) mod 64))
                 (String (toByte (128 + (r / 64) mod 64))
                   (String (toByte (128 + r mod 64)) s)))) = (r, 4%nat).
Proof.
  unfold_consts. intros H.
  pose proof (div_range r 0 8 262144 ltac:(lia) ltac:(lia)) as Ha.
  pose proof (Z.mod_pos_bound (r / 4096) 64 ltac:(lia)) as Hb.
  pose proof (Z.mod_pos_bound (r / 64) 64 ltac:(lia)) as Hc.
  pose proof (Z.mod_pos_bound r 64 ltac:(lia)) as Hd.
  assert (E : r = r / 262144 * 262144 + (r / 4096) mod 64 * 4096
                  + (r / 64) mod 64 * 64 + r mod 64)
    by (Z.div_mod_to_equations; lia).
  unfold decoderune. rewrite !byteVal_toByte.
  rewrite (Z.mod_small (240 + r / 262144) 256),
    (Z.mod_small (128 + (r / 4096) mod 64) 256),
    (Z.mod_small (128 + (r / 64) mod 64) 256),
    (Z.mod_small (128 + r mod 64) 256) by lia.
  unfold_consts. to_arith.
  rewrite (mod_plus 240 8 (r / 262144)),
    (mod_plus 128 64 ((r / 4096) mod 64)),
    (mod_plus 128 64 ((r / 64) mod 64)),
    (mod_plus 128 64 (r mod 64)) by (try reflexivity; lia).
  rewrite (lor_add (r / 262144 * 262144) ((r / 4096) mod 64 * 4096) 18)
    by (try lia; apply Z.mod_mul; lia).
  rewrite (lor_add (r / 262144 * 262144 + (r / 4096) mod 64 * 4096)
                   ((r / 64) mod 64 * 64) 12)
    by (try lia; change (2 ^ 12) with 4096; Z.div_mod_to_equations; lia).
  rewrite (lor_add (r / 262144 * 262144 + (r / 4096) mod 64 * 4096
                    + (r / 64) mod 64 * 64) (r mod 64) 6)
    by (try lia; change (2 ^ 6) with 64; Z.div_mod_to_equations; lia).
  rewrite <- E.
  repeat head_if. reflexivity.
Qed.

Lemma decoderune_valid (s : string) : validRune (fst (decoderune s)) = true.
Proof.
  destruct s as [|c0 s1]; [reflexivity|].
  unfold decoderune; cbv zeta.
  pose proof (byteVal_range c0) as R0.
  destruct (byteVal c0 <? 128) eqn:E0.
  { simpl. unfold validRune. unfold_consts. solve_bool. }
  destruct ((t2 <=? byteVal c0) && (byteVal c0 <? t3)) eqn:E2.
  { destruct s1 as [|c1 s2]; [reflexivity|].
    match goal with |- context [if ?c then _ else _] => destruct c eqn:E end;
      [|reflexivity].
    cbn [fst]. unfold_consts. to_arith.
    pose proof (Z.mod_pos_bound (byteVal c0) 32 ltac:(lia)).
    pose proof (Z.mod_pos_bound (byteVal c1) 64 ltac:(lia)).
    rewrite lor_add with (k := 6) in *
      by (try lia; apply Z.mod_mul; lia).
    unfold validRune. unfold_consts.
    apply andb_true_iff in E. destruct E as [_ E]. solve_bool. }
  destruct ((t3 <=? byteVal c0) && (byteVal c0 <? t4)) eqn:E3.
  { destruct s1 as [|c1 [|c2 s3]]; try reflexivity.
    match goal with |- context [if ?c then _ else _] => destruct c eqn:E end;
      [|reflexivity].
    cbn [fst]. unfold_consts. to_arith.
    pose proof (Z.mod_pos_bound (byteVal c0) 16 ltac:(lia)).
    pose proof (Z.mod_pos_bound (byteVal c1) 64 ltac:(lia)).
    pose proof (Z.mod_pos_bound (byteVal c2) 64 ltac:(lia)).
    rewrite (lor_add (byteVal c0 mod 16 * 4096) (byteVal c1 mod 64 * 64) 12)
      in * by (try lia; apply Z.mod_mul; lia).
    rewrite (lor_add _ (byteVal c2 mod 64) 6) in *
      by (try lia; change (2 ^ 6) with 64; Z.div_mod_to_equations; lia).
    unfold validRune. unfold_consts.
    repeat rewrite andb_true_iff in E. destruct E as [[_ E1] E4].
    rewrite E4. solve_bool. }
  destruct ((t4 <=? byteVal c0) && (byteVal c0 <? t5)) eqn:E4;
    [|reflexivity].
  destruct s1 as [|c1 [|c2 [|c3 s4]]]; try reflexivity.
  match goal with |- context [if ?c then _ else _] => destruct c eqn:E end;
    [|reflexivity].
  cbn [fst]. unfold validRune. unfold_consts.
  repeat rewrite andb_true_iff in E. destruct E as [[_ E1] E5].
  rewrite E5.
  apply Z.ltb_lt in E1. apply Z.leb_le in E5.
  match type of E1 with
  | _ < ?r => generalize dependent r; intros x E1 E5
  end.
  solve_bool.
Qed.

Lemma append_assoc (a b c : string) : (a +:+ b) +:+ c = a +:+ (b +:+ c).
Proof. induction a as [|x a IH]; simpl; [reflexivity|now rewrite IH]. Qed.

Lemma append_nil_r (a : string) : a +:+ EmptyString = a.
Proof. induction a as [|x a IH]; simpl; [reflexivity|now rewrite IH]. Qed.


(** A valid rune survives encoding and decoding. *)
Lemma decoderune_encoderune (r : Z) (s : string) :
  validRune r = true ->
  decoderune (encoderune r +:+ s) = (r, runeLen r)
  /\ String.length (encoderune r) = runeLen r.
Proof.
  unfold validRune, runeLen. unfold_consts. intros V.
  repeat rewrite andb_true_iff in V. destruct V as [[V0 V1] V2].
  apply Z.leb_le in V0, V1.
  destruct (Z.leb_spec r 127).
  { rewrite encoderune_1 by (unfold_consts; lia).
    cbn [String.append String.length].
    split; [apply decoderune_1; unfold_consts; lia|reflexivity]. }
  destruct (Z.leb_spec r 2047).
  { rewrite encoderune_2 by (unfold_consts; lia).
    cbn [String.append String.length].
    split; [apply decoderune_2; unfold_consts; lia|reflexivity]. }
  destruct (Z.leb_spec r 65535).
  { rewrite encoderune_3, encode3_arith by (unfold_consts; (lia || exact V2)).
    cbn [String.append String.length].
    split; [apply decoderune_3; unfold_consts; (lia || exact V2)|reflexivity]. }
  rewrite encoderune_4 by (unfold_consts; lia).
  cbn [String.append String.length].
  split; [apply decoderune_4; unfold_consts; lia|reflexivity].
Qed.

Lemma runesFrom_skip (t s : string) :
  runesFrom (String.length t) (t +:+ s) = runesFrom 0 s.
Proof. induction t as [|c t IH]; simpl; [reflexivity|exact IH]. Qed.

Lemma runes_encoderune (r : Z) (s : string) :
  validRune r = true -> runes (encoderune r +:+ s) = r :: runes s.
Proof.
  intros V. destruct (decoderune_encoderune r s V) as [D L].
  unfold runes. destruct (encoderune r) as [|c t] eqn:E.
  - simpl in L. unfold runeLen in L.
    repeat match type of L with context [if ?c then _ else _] =>
      destruct c end; discriminate.
  - simpl in D, L |- *. cbv zeta in D. 
    change (runesFrom 0 (String c (t +:+ s)))
      with (let (r', w) := decoderune (String c (t +:+ s)) in
            r' :: runesFrom (Nat.pred w) (t +:+ s)).
    rewrite D, <- L. simpl. now rewrite runesFrom_skip.
Qed.

Lemma runes_stringOfRunes (rs : list Z) (s : string) :
  forallb validRune rs = true ->
  runes (stringOfRunes rs +:+ s) = rs ++ runes s.
Proof.
  induction rs as [|r rs IH]; simpl; intros V; [reflexivity|].
  apply andb_true_iff in V. destruct V as [V1 V2].
  rewrite append_assoc, runes_encoderune by assumption.
  now rewrite IH.
Qed.

Lemma runesFrom_valid (s : string) (k : nat) :
  forallb validRune (runesFrom k s) = true.
Proof.
  revert k. induction s as [|c s IH]; intros k; [reflexivity|].
  destruct k as [|k]; [|apply IH].
  change (runesFrom 0 (String c s))
    with (let (r', w) := decoderune (String c s) in
          r' :: runesFrom (Nat.pred w) s).
  pose proof (decoderune_valid (String c s)) as V.
  destruct (decoderune (String c s)) as [r w]. simpl in V |- *.
  now rewrite V, IH.
Qed.

Lemma runes_valid (s : string) : forallb validRune (runes s) = true.
Proof. apply runesFrom_valid. Qed.

Lemma forallb_firstn {A} (f : A -> bool) (n : nat) (l : list A) :
  forallb f l = true -> forallb f (firstn n l) = true.
Proof.
  revert n. induction l as [|a l IH]; intros [|n] H; simpl in *;
    try reflexivity.
  apply andb_true_iff in H. destruct H as [H1 H2].
  now rewrite H1, IH.
Qed.

Lemma forallb_skipn {A} (f : A -> bool) (n : nat) (l : list A) :
  forallb f l = true -> forallb f (skipn n l) = true.
Proof.
  revert n. induction l as [|a l IH]; intros [|n] H; simpl in *;
    try reflexivity; try assumption.
  apply andb_true_iff in H. destruct H as [H1 H2]. now apply IH.
Qed.

Lemma runes_ellipsis_head (s : string) :
  runes (ellipsis +:+ s) = ellipsisRune :: runes s.
Proof. apply (runes_encoderune ellipsisRune s). reflexivity. Qed.

Lemma runes_ellipsis_tail (rs : list Z) :
  forallb validRune rs = true ->
  runes (stringOfRunes rs +:+ ellipsis) = rs ++ [ellipsisRune].
Proof.
  intros V. rewrite runes_stringOfRunes by assumption. reflexivity.
Qed.

Lemma runesFrom_length (s : string) (k : nat) :
  (List.length (runesFrom k s) <= String.length s)%nat.
Proof.
  revert k. induction s as [|c s IH]; intros k; [apply Nat.le_refl|].
  destruct k as [|k].
  - change (runesFrom 0 (String c s))
      with (let (r', w) := decoderune (String c s) in
            r' :: runesFrom (Nat.pred w) s).
    destruct (decoderune (String c s)) as [r w]. simpl.
    specialize (IH (Nat.pred w)). lia.
  - simpl. specialize (IH k). lia.
Qed.

(** A string has at most as many runes as bytes. *)
Lemma runes_length (s : string) :
  Z.of_nat (List.length (runes s)) <= len s.
Proof. unfold runes, len. pose proof (runesFrom_length s 0). lia. Qed.

(** ** [truncate] *)

(** The three cases of [truncate] for a limit that is not zero. *)
Lemma truncate_cases (s : string) (l : Z) :
  MinInt <= l <= MaxInt -> len s <= MaxInt -> l <> 0 ->
  let rs := runes s in
  let n := Z.of_nat (List.length rs) in
  (0 < l -> n <= l -> truncate s l = Some s)
  /\ (0 < l -> l < n ->
      exists t,
        truncate s l = Some t
        /\ t = stringOfRunes (firstn (Z.to_nat (l - 1)) rs) +:+ ellipsis
        /\ runes t = firstn (Z.to_nat (l - 1)) rs ++ [ellipsisRune]
        /\ Z.of_nat (List.length (runes t)) = l)
  /\ (l < 0 -> - l < n ->
      exists t,
        truncate s l = Some t
        /\ t = ellipsis
               +:+ stringOfRunes
                     (skipn (List.length rs - Z.to_nat (- l - 1)) rs)
        /\ runes t
           = ellipsisRune :: skipn (List.length rs - Z.to_nat (- l - 1)) rs
        /\ Z.of_nat (List.length (runes t)) = - l).
Proof.
  intros Hl Hs Hnz rs n.
  pose proof (runes_length s) as Hn. fold rs in Hn. fold n in Hn.
  pose proof (runes_valid s) as V. fold rs in V.
  assert (Hmin : MinInt = - 2 ^ 63) by reflexivity.
  assert (Hmax : MaxInt = 2 ^ 63 - 1) by reflexivity.
  repeat split.
  - intros Hpos Hle. unfold truncate.
    destruct (Z.ltb_spec l 0); [lia|].
    fold rs. fold n. destruct (Z.leb_spec n l); [reflexivity|lia].
  - intros Hpos Hlt.
    exists (stringOfRunes (firstn (Z.to_nat (l - 1)) rs) +:+ ellipsis).
    repeat split.
    + unfold truncate. destruct (Z.ltb_spec l 0); [lia|].
      fold rs. fold n. destruct (Z.leb_spec n l); [lia|].
      unfold sub. rewrite wrap_id by lia.
      unfold sliceTo. fold n.
      destruct (Z.leb_spec 0 (l - 1)); [|lia].
      destruct (Z.leb_spec (l - 1) n); [|lia]. reflexivity.
    + apply runes_ellipsis_tail. now apply forallb_firstn.
    + rewrite runes_ellipsis_tail by now apply forallb_firstn.
      rewrite length_app, length_firstn. simpl. unfold n in *. lia.
  - intros Hneg Hlt.
    exists (ellipsis
            +:+ stringOfRunes
                  (skipn (List.length rs - Z.to_nat (- l - 1)) rs)).
    assert (E : Z.to_nat (n - - l + 1)
                = (List.length rs - Z.to_nat (- l - 1))%nat)
      by (unfold n; lia).
    repeat split.
    + unfold truncate. destruct (Z.ltb_spec l 0); [|lia].
      fold rs. fold n. unfold neg. rewrite (wrap_id (- l)) by lia.
      destruct (Z.leb_spec n (- l)); [lia|].
      unfold add, sub. rewrite (wrap_id (n - - l)) by lia.
      rewrite wrap_id by lia.
      unfold sliceFrom. fold n.
      destruct (Z.leb_spec 0 (n - - l + 1)); [|lia].
      destruct (Z.leb_spec (n - - l + 1) n); [|lia].
      simpl. now rewrite E.
    + rewrite runes_ellipsis_head. f_equal.
      rewrite <- (app_nil_r (skipn _ rs)) at 2.
      rewrite <- (append_nil_r (stringOfRunes _)).
      apply runes_stringOfRunes. now apply forallb_skipn.
    + rewrite runes_ellipsis_head. simpl.
      rewrite <- (append_nil_r (stringOfRunes _)).
      rewrite runes_stringOfRunes by now apply forallb_skipn.
      rewrite app_nil_r, length_skipn. unfold n in *. lia.
Qed.

(** C5.  For a limit [l] that is not zero: a string of at most [l] runes is
    returned as it is; a longer one is cut to its first [l-1] runes followed
    by the ellipsis, [l] runes in all; and for a negative limit a string of
    more than [-l] runes is cut to the ellipsis followed by its last
    [(-l)-1] runes, [-l] runes in all. *)
Theorem truncate_spec (s : string) (l : Z) :
  MinInt <= l <= MaxInt -> len s <= MaxInt -> l <> 0 ->
  let rs := runes s in
  let n := Z.of_nat (List.length rs) in
  (0 < l -> n <= l -> truncate s l = Some s)
  /\ (0 < l -> l < n ->
      exists t,
        truncate s l = Some t
        /\ t = stringOfRunes (firstn (Z.to_nat (l - 1)) rs) +:+ ellipsis
        /\ runes t = firstn (Z.to_nat (l - 1)) rs ++ [ellipsisRune]
        /\ Z.of_nat (List.length (runes t)) = l)
  /\ (l < 0 -> - l < n ->
      exists t,
        truncate s l = Some t
        /\ t = ellipsis
               +:+ stringOfRunes
                     (skipn (List.length rs - Z.to_nat (- l - 1)) rs)
        /\ runes t
           = ellipsisRune :: skipn (List.length rs - Z.to_nat (- l - 1)) rs
        /\ Z.of_nat (List.length (runes t)) = - l).
Proof. exact (truncate_cases s l). Qed.

Lemma truncate_spec_witness :
  truncate "ab" 5 = Some "ab"
  /\ (exists t, truncate "abcdefghij" 5 = Some t
                /\ runes t = [97; 98; 99; 100; ellipsisRune])
  /\ (exists t, truncate "abcdefghij" (-5) = Some t
                /\ runes t = [ellipsisRune; 103; 104; 105; 106]).
Proof.
  assert (R : forall l, -10 <= l <= 10 -> MinInt <= l <= MaxInt)
    by (unfold MinInt, MaxInt, intSize; lia).
  assert (L : forall s, (String.length s <= 10)%nat -> len s <= MaxInt)
    by (unfold len, MaxInt, intSize; lia).
  split; [|split].
  - apply (truncate_spec "ab" 5); simpl; try lia.
    + apply R; lia.
    + apply L. simpl. lia.
  - destruct (truncate_spec "abcdefghij" 5) as (_ & H & _); try lia.
    + apply R; lia.
    + apply L. simpl. lia.
    + destruct H as (t & Ht & _ & Hr & _); simpl; try lia.
      exists t. split; [exact Ht|exact Hr].
  - destruct (truncate_spec "abcdefghij" (-5)) as (_ & _ & H); try lia.
    + apply R; lia.
    + apply L. simpl. lia.
    + destruct H as (t & Ht & _ & Hr & _); simpl; try lia.
      exists t. split; [exact Ht|exact Hr].
Defined.

(** A string that is not empty has a rune. *)
Lemma runes_nonempty (s : string) : s <> EmptyString -> runes s <> [].
Proof.
  destruct s as [|c s]; [congruence|]. intros _. unfold runes.
  change (runesFrom 0 (String c s))
    with (let (r', w) := decoderune (String c s) in
          r' :: runesFrom (Nat.pred w) s).
  destruct (decoderune (String c s)). discriminate.
Qed.

Lemma truncate_zero_panics (s : string) :
  s <> EmptyString -> truncate s 0 = None.
Proof.
  intros H. apply runes_nonempty in H. unfold truncate.
  destruct (runes s) as [|r rs]; [congruence|]. reflexivity.
Qed.

Lemma truncate_total (s : string) (l : Z) :
  MinInt < l <= MaxInt -> len s <= MaxInt -> l <> 0 ->
  exists t, truncate s l = Some t.
Proof.
  intros Hl Hs Hnz.
  destruct (truncate_cases s l ltac:(lia) Hs Hnz) as (H1 & H2 & H3).
  pose proof (runes_length s) as Hn.
  assert (Hmin : MinInt = - 2 ^ 63) by reflexivity.
  assert (Hmax : MaxInt = 2 ^ 63 - 1) by reflexivity.
  destruct (Z.lt_trichotomy l 0) as [Hneg|[H0|Hpos]]; [|lia|].
  - destruct (Z.le_gt_cases (Z.of_nat (List.length (runes s))) (- l))
      as [Hle|Hgt].
    + exists s. unfold truncate.
      destruct (Z.ltb_spec l 0); [|lia].
      unfold neg. rewrite wrap_id by lia.
      destruct (Z.leb_spec (Z.of_nat (List.length (runes s))) (- l));
        [reflexivity|lia].
    + destruct (H3 Hneg ltac:(lia)) as (t & Ht & _). now exists t.
  - destruct (Z.le_gt_cases (Z.of_nat (List.length (runes s))) l) as [Hle|Hgt].
    + exists s. now apply H1.
    + destruct (H2 Hpos ltac:(lia)) as (t & Ht & _). now exists t.
Qed.

(** ** [mediaFormatFunc] *)

(** C3, evaluated where the code departs from it.  With a 40-letter artist
    and the title "abc", the short title does not pass its unused budget to
    the artist: the artist is cut again, to [35 - 3] runes, and 35 of the 70
    characters are used.  With an artist of 35 four-byte runes, the title is
    given [70 - 140] as its limit and the two fields together have 105
    runes. *)
Theorem mediaFormatFunc_budget_at_failing_inputs :
  mediaArtistTitle shortTitle = Some (rep 31 "a" +:+ ellipsis, "abc")
  /\ runeCount (media.Artist shortTitle) = 40
  /\ runeCount (rep 31 "a" +:+ ellipsis) + runeCount "abc" = 35
  /\ mediaArtistTitle wideArtist = Some (rep 35 "😀", rep 70 "x")
  /\ runeCount (rep 35 "😀") + runeCount (rep 70 "x") = 105.
Proof. repeat split; vm_compute; reflexivity. Qed.

(** C4, evaluated where the code departs from it.  The artist has 10 runes
    in 20 bytes; the limit of the title is [70 - 20], not [70 - 10], and a
    title of 65 letters is cut to 50 runes. *)
Theorem mediaFormatFunc_budget_in_bytes :
  runeCount (media.Artist accentedArtist) = 10
  /\ len (media.Artist accentedArtist) = 20
  /\ mediaArtistTitle accentedArtist
     = Some (rep 10 "é", rep 49 "x" +:+ ellipsis)
  /\ runeCount (rep 49 "x" +:+ ellipsis) = 50
  /\ truncate (media.Title accentedArtist) (70 - 10)
     = Some (rep 59 "x" +:+ ellipsis).
Proof. repeat split; vm_compute; reflexivity. Qed.

(** The title is cut with limit 0, and [mediaFormatFunc] panics, when the
    artist as first cut takes 70 bytes. *)
Lemma mediaFormatFunc_panics (m : media.Info) (artist : string) :
  media.PlaybackStatus_ m = media.Playing
  \/ media.PlaybackStatus_ m = media.Paused ->
  truncate (media.Artist m) 35 = Some artist ->
  len artist = 70 ->
  media.Title m <> EmptyString ->
  mediaFormatFunc m = None.
Proof.
  intros St Ha Hl Ht. unfold mediaFormatFunc, mediaArtistTitle.
  rewrite Ha, Hl. change (sub 70 70) with 0.
  rewrite (truncate_zero_panics _ Ht).
  destruct St as [-> | ->]; reflexivity.
Qed.

(** C10 as stated fails at the least [int]: its negation is itself, and the
    slice bound [inLen-l+1] is negative. *)
Lemma truncate_panics_at_MinInt :
  ~ (forall (s : string) (l : Z),
       MinInt <= l <= MaxInt -> len s <= MaxInt -> l <> 0 ->
       exists t, truncate s l = Some t).
Proof.
  intros H.
  assert (R : MinInt <= MinInt <= MaxInt) by (vm_compute; split; discriminate).
  assert (L : len EmptyString <= MaxInt) by (vm_compute; discriminate).
  assert (N : MinInt <> 0) by discriminate.
  destruct (H EmptyString MinInt R L N) as (t & Ht).
  vm_compute in Ht. discriminate.
Qed.

(** C10, amended.  [truncate] returns for every limit that is neither zero
    nor the least [int]; at limit zero it panics on every string that is not
    empty; and [mediaFormatFunc] reaches limit zero, and panics, whenever
    the artist as first cut takes 70 bytes and there is a title, as for an
    artist of 35 two-byte runes. *)
Theorem truncate_total_except_zero :
  (forall (s : string) (l : Z),
     MinInt < l <= MaxInt -> len s <= MaxInt -> l <> 0 ->
     exists t, truncate s l = Some t)
  /\ (forall s : string, s <> EmptyString -> truncate s 0 = None)
  /\ (forall (m : media.Info) (artist : string),
        media.PlaybackStatus_ m = media.Playing
        \/ media.PlaybackStatus_ m = media.Paused ->
        truncate (media.Artist m) 35 = Some artist ->
        len artist = 70 ->
        media.Title m <> EmptyString ->
        mediaFormatFunc m = None)
  /\ mediaFormatFunc seventyBytes = None.
Proof.
  split; [exact truncate_total|].
  split; [exact truncate_zero_panics|].
  split; [exact mediaFormatFunc_panics|].
  vm_compute. reflexivity.
Qed.

Lemma truncate_total_except_zero_witness :
  (exists t, truncate "abcdefghij" (-5) = Some t)
  /\ truncate "x" 0 = None
  /\ mediaFormatFunc seventyBytes = None.
Proof.
  destruct truncate_total_except_zero as (T & Z0 & P & _).
  split; [|split].
  - apply T.
    + unfold MinInt, MaxInt, intSize. lia.
    + unfold len, MaxInt, intSize. simpl. lia.
    + lia.
  - apply Z0. discriminate.
  - apply (P seventyBytes (rep 35 "é")).
    + left. reflexivity.
    + vm_compute. reflexivity.
    + vm_compute. reflexivity.
    + discriminate.
Defined.

(** ** Running [main] against the monitor *)

Section Exec.
Variable env : Env.
Context {A : Type}.
Variables (Q : A -> Seen -> Prop) (E : Seen -> Prop).

Lemma observe_snoc (tr : list Event) (e : Event) :
  observe (tr ++ [e]) = see (observe tr) e.
Proof. unfold observe. now rewrite fold_left_app. Qed.

Lemma exec_ret (s : Seen) (a : A) : Q a s -> exec env s (ret a) Q E.
Proof. intros H tr <-. exact H. Qed.

Lemma exec_panic (s : Seen) (msg : string) :
  E s -> exec env s (panic msg) Q E.
Proof. intros H tr <-. exact H. Qed.

Lemma exec_ask (s : Seen) (f : Env -> A) :
  Q (f env) s -> exec env s (ask f) Q E.
Proof. intros H tr <-. exact H. Qed.

Lemma exec_bind {B} (s : Seen) (m : M B) (k : B -> M A) :
  exec env s m (fun b s' => exec env s' (k b) Q E) E ->
  exec env s (bind m k) Q E.
Proof.
  intros H tr Hs. specialize (H tr Hs). unfold bind.
  destruct (m env tr) as [b tr'|msg tr']; [|exact H].
  now apply H.
Qed.

Lemma exec_mono (s : Seen) (m : M A)
  (Q' : A -> Seen -> Prop) (E' : Seen -> Prop) :
  exec env s m Q' E' ->
  (forall a s', Q' a s' -> Q a s') -> (forall s', E' s' -> E s') ->
  exec env s m Q E.
Proof.
  intros H HQ HE tr Hs. specialize (H tr Hs).
  destruct (m env tr); auto.
Qed.
End Exec.

Lemma exec_emit (env : Env) (Q : unit -> Seen -> Prop) (E : Seen -> Prop)
  (s : Seen) (e : Event) :
  Q tt (see s e) -> exec env s (emit e) Q E.
Proof. intros H tr <-. unfold emit. now rewrite observe_snoc. Qed.

Lemma exec_construct (env : Env) (Q : BarModule -> Seen -> Prop)
  (E : Seen -> Prop) (s : Seen) (m : BarModule) :
  Q m (see s (Construct m)) -> exec env s (construct m) Q E.
Proof.
  intros H. unfold construct. apply exec_bind, exec_emit, exec_ret. exact H.
Qed.

Lemma exec_mode (env : Env) (Q : modal.Modal -> Seen -> Prop)
  (E : Seen -> Prop) (s : Seen) (key : string) (m : modal.Modal) :
  Q (modal.Mode_ key m) (see s (ModalMode key)) ->
  exec env s (mode key m) Q E.
Proof.
  intros H. unfold mode. apply exec_bind, exec_emit, exec_ret. exact H.
Qed.

Lemma exec_home (env : Env) (Q : string -> Seen -> Prop) (E : Seen -> Prop)
  (s : Seen) (path : list string) :
  (forall h, Q h s) -> E s -> exec env s (home path) Q E.
Proof.
  intros HQ HE. unfold home. apply exec_bind, exec_ask.
  destruct (userCurrent env).
  - apply exec_bind, exec_ask, exec_ret, HQ.
  - apply exec_panic, HE.
Qed.

(** Steps that the monitor does not tell apart leave what it shows as it
    is, as long as no one-shot read is under way. *)
Lemma see_other (s : Seen) (e : Event) :
  oneShot s = Idle ->
  match e with
  | Exec _ | KeyringGet _ _ | KeyringSet _ _ _ | RandRead
  | SetEncryptionKey _ | MdiLoad _ | LoadBarConfig | ColorsSet _ _
  | Construct _ | ModalNew => see s e = s
  | _ => True
  end.
Proof. destruct s; simpl; intros ->; destruct e; reflexivity. Qed.

Lemma exec_command (env : Env) (Q : string -> Seen -> Prop)
  (E : Seen -> Prop) (s : Seen) (args : list string) :
  oneShot s = Idle -> (forall out, Q out s) -> exec env s (command args) Q E.
Proof.
  intros Hs HQ. unfold command. apply exec_bind, exec_emit.
  rewrite (see_other s (Exec args) Hs).
  apply exec_bind, exec_ask, exec_ret, HQ.
Qed.

Lemma exec_deviceForMountPath (env : Env) (Q : string -> Seen -> Prop)
  (E : Seen -> Prop) (s : Seen) (path : string) :
  oneShot s = Idle -> (forall dev, Q dev s) ->
  exec env s (deviceForMountPath path) Q E.
Proof.
  intros Hs HQ. unfold deviceForMountPath.
  apply exec_bind, exec_command; [exact Hs|]. intros mnt.
  destruct (Split mnt newline) as [|line0 [|line1 rest]];
    try (apply exec_ret, HQ).
  apply exec_bind, exec_command; [exact Hs|]. intros dev.
  apply exec_bind, exec_ask.
  destruct (negb _); apply exec_ret, HQ.
Qed.

(** The error of [setupOauthEncryption] does not depend on the trace, and
    its events are none the monitor tells apart. *)
Lemma setupOauthEncryption_result (env : Env) :
  exists err, forall tr, exists evs,
    setupOauthEncryption env tr = Done err (tr ++ evs)
    /\ forall s, oneShot s = Idle -> fold_left see evs s = s.
Proof.
  unfold setupOauthEncryption, bind, ask, emit, ret.
  destruct (match keyringGet env with
            | Some s => DecodeString env s
            | None => None
            end) as [key|]; [|destruct (randRead env) as [key|err]];
    eexists; intros tr;
    [ exists [KeyringGet "barista-cv"
                (match userCurrent env with
                 | Some u => Username u
                 | None => "user-" +:+ itoa (Getuid env)
                 end);
              SetEncryptionKey key]
    | eexists [_; _; _; _]
    | eexists [_; _] ];
    (split; [rewrite <- !app_assoc; reflexivity|]);
    intros [r o n b ks] Hs; simpl in *; subst o; reflexivity.
Qed.

Lemma exec_setupOauthEncryption (env : Env)
  (Q : option string -> Seen -> Prop) (E : Seen -> Prop) (s : Seen) :
  oneShot s = Idle ->
  (forall err, (oauthFails env -> err <> None) -> Q err s) ->
  exec env s setupOauthEncryption Q E.
Proof.
  intros Hs HQ tr Htr.
  destruct (setupOauthEncryption_result env) as (err & R).
  destruct (R tr) as (evs & Rtr & Same). rewrite Rtr.
  unfold observe in *. rewrite fold_left_app, Htr, Same by exact Hs.
  apply HQ. intros (tr1 & e & tr1' & F).
  destruct (R tr1) as (evs1 & R1 & _). rewrite R1 in F.
  injection F as -> _. discriminate.
Qed.

Lemma exec_makeTzClock (env : Env) (Q : BarModule -> Seen -> Prop)
  (E : Seen -> Prop) (s : Seen) (lbl tzName : string) :
  (ZoneByName env tzName = true ->
   Q (tzClock lbl tzName) (see s (Construct (tzClock lbl tzName)))) ->
  (ZoneByName env tzName = false -> E s) ->
  exec env s (makeTzClock lbl tzName) Q E.
Proof.
  intros HQ HE. unfold makeTzClock. apply exec_bind, exec_ask.
  destruct (ZoneByName env tzName).
  - apply exec_construct. now apply HQ.
  - apply exec_panic. now apply HE.
Qed.

Ltac see_step :=
  cbv beta;
  cbn [see running oneShot standing built registered interrupt app Nat.pred].

Ltac panic_goal := repeat split; reflexivity.

(** One statement of [main]. *)
Ltac step :=
  lazymatch goal with
  | |- exec _ _ (bind (emit _) _) _ _ => apply exec_bind, exec_emit; see_step
  | |- exec _ _ (bind (ask _) _) _ _ => apply exec_bind, exec_ask; see_step
  | |- exec _ _ (bind (ret _) _) _ _ => apply exec_bind, exec_ret; see_step
  | |- exec _ _ (bind (construct _) _) _ _ =>
    apply exec_bind, exec_construct; see_step
  | |- exec _ _ (bind (mode _ _) _) _ _ =>
    apply exec_bind, exec_mode; see_step
  | |- exec _ _ (bind (home _) _) _ _ =>
    apply exec_bind, exec_home; [intros ?; see_step|panic_goal]
  | |- exec _ _ (bind (deviceForMountPath _) _) _ _ =>
    apply exec_bind, exec_deviceForMountPath;
    [reflexivity|intros ?; see_step]
  | |- exec _ _ (bind setupOauthEncryption _) _ _ =>
    apply exec_bind, exec_setupOauthEncryption;
    [reflexivity|intros ? ?; see_step]
  | |- exec _ _ (bind (makeTzClock _ _) _) _ _ =>
    apply exec_bind, exec_makeTzClock; [intros ?; see_step|intros _; panic_goal]
  | |- exec _ _ (bind (if ?c then _ else _) _) _ _ =>
    apply exec_bind; destruct c
  | |- exec _ _ (bind (bind _ _) _) _ _ => apply exec_bind
  | |- exec _ _ (match ?x with Some _ => _ | None => _ end) _ _ => destruct x
  | |- exec _ _ (panic _) _ _ => apply exec_panic; panic_goal
  | |- exec _ _ (emit _) (fun _ _ => _) _ => apply exec_emit; see_step
  | |- exec _ _ (ret _) (fun _ _ => _) _ => apply exec_ret; see_step
  | |- exec _ _ (let x := _ in _) _ _ => cbv zeta
  end.

Lemma main_exec (env : Env) : exec env unseen main (mainPost env) mainPanic.
Proof.
  unfold main.
  repeat step.
  all: cbv [modal.Build].
  all: apply exec_bind, exec_emit; see_step; apply exec_ret.
  all: unfold mainPost; cbn [snd fst].
  all: repeat split.
  all: lazymatch goal with
       | H : _ -> None <> None |- ~ _ => intros F; now apply H in F
       | |- forall tz, _ =>
         intros tz Htz; cbv [timezones In] in Htz;
         repeat destruct Htz as [<-|Htz]; solve [assumption | contradiction]
       end.
Qed.

(** ** From what the monitor shows to the trace *)

Lemma running_kept (tr : list Event) (s : Seen) :
  running s = true -> running (fold_left see tr s) = true.
Proof.
  revert s. induction tr as [|e tr IH]; intros s H; [exact H|].
  simpl. apply IH. destruct e; simpl; auto.
Qed.

Lemma running_seen (tr : list Event) (ms : list BarModule) :
  In (Run ms) tr -> running (observe tr) = true.
Proof.
  unfold observe. generalize unseen.
  induction tr as [|e tr IH]; intros s H; [contradiction|].
  destruct H as [->|H]; simpl.
  - now apply running_kept.
  - now apply IH.
Qed.

Lemma broken_kept (tr : list Event) (s : Seen) :
  oneShot s = Broken -> oneShot (fold_left see tr s) = Broken.
Proof.
  revert s. induction tr as [|e tr IH]; intros s H; [exact H|].
  simpl. apply IH. destruct e; simpl; rewrite H; reflexivity.
Qed.

Lemma readOnce_nil : readOnce [].
Proof. intros [|? ?] post H; discriminate H. Qed.

Lemma readOnce_cons (e : Event) (tr : list Event) :
  e <> NetlinkAny -> readOnce tr -> readOnce (e :: tr).
Proof.
  intros He H [|x pre] post Eq; injection Eq as Ex Et.
  - congruence.
  - now apply (H pre post).
Qed.

Lemma readOnce_read (tr : list Event) :
  readOnce tr -> readOnce (NetlinkAny :: SubGet :: SubUnsubscribe :: tr).
Proof.
  intros H [|x [|y [|z pre]]] post Eq; injection Eq; intros; subst;
    try discriminate.
  - now eexists.
  - now apply (H pre post).
Qed.

Lemma oneShot_readOnce (tr : list Event) (s : Seen) :
  oneShot (fold_left see tr s) = Idle ->
  match oneShot s with
  | Idle => readOnce tr
  | Opened => exists t, tr = SubGet :: SubUnsubscribe :: t /\ readOnce t
  | Read => exists t, tr = SubUnsubscribe :: t /\ readOnce t
  | Broken => False
  end.
Proof.
  revert s. induction tr as [|e tr IH]; intros s H.
  - simpl in H. rewrite H. apply readOnce_nil.
  - simpl in H. specialize (IH _ H).
    destruct (oneShot s) eqn:Es.
    + destruct e; simpl in IH; rewrite Es in IH; simpl in IH;
        try (apply readOnce_cons; [discriminate|exact IH]);
        try contradiction.
      destruct IH as (t & -> & Ht). now apply readOnce_read.
    + destruct e; simpl in IH; rewrite Es in IH; simpl in IH;
        try contradiction.
      destruct IH as (t & -> & Ht). now exists t.
    + destruct e; simpl in IH; rewrite Es in IH; simpl in IH;
        try contradiction.
      now exists tr.
    + rewrite (broken_kept tr (see s e)) in H; [discriminate|].
      destruct e; simpl; rewrite Es; reflexivity.
Qed.

Lemma observe_readOnce (tr : list Event) :
  oneShot (observe tr) = Idle -> readOnce tr.
Proof. intros H. exact (oneShot_readOnce tr unseen H). Qed.

Lemma registered_seen (tr : list Event) (key : string) :
  In key (registered (observe tr)) ->
  (built (observe tr) = false -> In (ModalMode key) tr)
  /\ (built (observe tr) = true -> registeredBeforeBuild key tr).
Proof.
  induction tr as [|e tr IH] using rev_ind; [contradiction|].
  rewrite observe_snoc.
  assert (Later : registeredBeforeBuild key tr ->
                  registeredBeforeBuild key (tr ++ [e])).
  { intros (pre & post & -> & Hin). exists pre, (post ++ [e]).
    now rewrite <- app_assoc. }
  destruct e; simpl; intros Hin;
    try (split; intros Hb;
         [apply in_or_app; left; now apply IH|apply Later; now apply IH]).
  - (* [ModalMode] *)
    destruct (built (observe tr)) eqn:Hb.
    + split; [discriminate|]. intros _. apply Later. now apply IH.
    + split; [|discriminate]. intros _. apply in_app_or in Hin.
      apply in_or_app. destruct Hin as [Hin|[<-|[]]].
      * left. now apply IH.
      * right. now left.
  - (* [ModalBuild] *)
    split; [discriminate|]. intros _.
    destruct (built (observe tr)) eqn:Hb.
    + apply Later. now apply IH.
    + exists tr, []. split; [reflexivity|]. now apply IH.
Qed.

(** ** Set-up failures *)

(** C8.  If [setupOauthEncryption] returns an error, or one of the time
    zones given to [makeTzClock] is unknown to [clock.ZoneByName], [main]
    panics and [barista.Run] is not in its trace: the render loop is never
    entered. *)
Theorem main_aborts_on_setup_failure (env : Env) :
  oauthFails env
  \/ (exists tz, In tz timezones /\ ZoneByName env tz = false) ->
  panicked (main env []) = true
  /\ forall ms, ~ In (Run ms) (traceOf (main env [])).
Proof.
  intros Fail. pose proof (main_exec env [] eq_refl) as H.
  destruct (main env []) as [r tr|msg tr]; simpl.
  - destruct H as (_ & Hoauth & Hzones & _).
    destruct Fail as [F|(tz & Hin & Hz)]; [contradiction|].
    rewrite (Hzones tz Hin) in Hz. discriminate.
  - split; [reflexivity|]. intros ms Hin.
    destruct H as (Hrun & _). apply running_seen in Hin. congruence.
Qed.

Lemma main_aborts_on_setup_failure_witness :
  (panicked (main noSecretEnv []) = true
   /\ forall ms, ~ In (Run ms) (traceOf (main noSecretEnv [])))
  /\ (panicked (main noTokyoEnv []) = true
      /\ forall ms, ~ In (Run ms) (traceOf (main noTokyoEnv []))).
Proof.
  split.
  - apply (main_aborts_on_setup_failure noSecretEnv). left.
    exists [], "EOF". eexists. vm_compute. reflexivity.
  - apply (main_aborts_on_setup_failure noTokyoEnv). right.
    exists "Asia/Tokyo". split; [|reflexivity].
    simpl. intuition.
Defined.

(** ** The one-shot netlink read *)

(** C9.  Wherever [netlink.Any()] is in the trace of [main], the next two
    events are [Get()] and [Unsubscribe()] on that subscription, with no
    module built in between; and no subscription is left open, whether
    [main] reaches the render loop or panics. *)
Theorem netlink_read_is_unsubscribed (env : Env) :
  (forall pre post : list Event,
     traceOf (main env []) = pre ++ NetlinkAny :: post ->
     exists post', post = SubGet :: SubUnsubscribe :: post')
  /\ standing (observe (traceOf (main env []))) = 0%nat.
Proof.
  pose proof (main_exec env [] eq_refl) as H.
  assert (I : oneShot (observe (traceOf (main env []))) = Idle
              /\ standing (observe (traceOf (main env []))) = 0%nat).
  { destruct (main env []) as [r tr|msg tr]; simpl.
    - destruct H as (-> & _). split; reflexivity.
    - destruct H as (_ & H1 & H2). now split. }
  destruct I as [I1 I2]. split; [|exact I2].
  exact (observe_readOnce _ I1).
Qed.

Lemma netlink_read_is_unsubscribed_witness :
  exists post',
    skipn 24 (traceOf (main sampleEnv []))
    = SubGet :: SubUnsubscribe :: post'.
Proof.
  destruct (netlink_read_is_unsubscribed sampleEnv) as [Once _].
  apply (Once (firstn 23 (traceOf (main sampleEnv [])))).
  vm_compute. reflexivity.
Defined.

(** ** Modules with nothing to show *)

(** C6.  [mediaFormatFunc] returns nil when the player is stopped or
    disconnected, the battery function returns nil, and leaves the
    controller alone, when the battery is disconnected or unknown, and the
    netinfo function returns nil for a link that is not enabled; none of
    them panics there. *)
Theorem nothing_to_show_is_nil :
  (forall m : media.Info,
     media.PlaybackStatus_ m = media.Stopped
     \/ media.PlaybackStatus_ m = media.Disconnected ->
     mediaFormatFunc m = Some Nil)
  /\ (forall (i : battery.Info) (c : modal.Controller),
        battery.Status_ i = battery.Disconnected
        \/ battery.Status_ i = battery.Unknown ->
        batteryOutput i c = (c, Nil))
  /\ (forall i : netinfo.State,
        netinfo.Enabled i = false -> netOutput i = Nil).
Proof.
  repeat split.
  - intros m [H|H]; unfold mediaFormatFunc; rewrite H; reflexivity.
  - intros i c [H|H]; unfold batteryOutput; rewrite H; reflexivity.
  - intros i H. unfold netOutput. rewrite H. reflexivity.
Qed.

Lemma nothing_to_show_is_nil_witness :
  mediaFormatFunc (media.mkInfo media.Stopped "Artist" "Title" 0 0)
  = Some Nil
  /\ batteryOutput
       (battery.mkInfo battery.Unknown 50 0 0%float 0%float 0%float)
       (snd (modal.Build modal.New))
     = (snd (modal.Build modal.New), Nil)
  /\ netOutput (netinfo.mkState false false "eth0" []) = Nil.
Proof.
  destruct nothing_to_show_is_nil as (M & B & N).
  split; [|split].
  - apply M. left. reflexivity.
  - apply B. right. reflexivity.
  - apply N. reflexivity.
Defined.

(** ** The modal controller *)

Lemma keys_onMode (key : string) (f : modal.Mode -> modal.Mode)
  (m : modal.Modal) :
  modal.keys (modal.onMode key f m) = modal.keys m.
Proof.
  unfold modal.keys, modal.onMode. rewrite map_map.
  apply map_ext. intros [k md]. simpl. now destruct (String.eqb k key).
Qed.

Lemma lookup_onMode (key k : string) (f : modal.Mode -> modal.Mode)
  (m : modal.Modal) :
  modal.lookup k (modal.onMode key f m)
  = if String.eqb k key then option_map f (modal.lookup k m)
    else modal.lookup k m.
Proof.
  induction m as [|[k0 md] m IH]; simpl.
  - now destruct (String.eqb k key).
  - destruct (String.eqb_spec k0 key) as [->|Hk0]; simpl.
    + destruct (String.eqb_spec key k) as [->|Hk].
      * now rewrite String.eqb_refl.
      * exact IH.
    + destruct (String.eqb_spec k0 k) as [->|Hk].
      * destruct (String.eqb_spec k key); [contradiction|reflexivity].
      * exact IH.
Qed.

(** Only the three functions that call [SetOutput] touch the controller,
    and none changes its state. *)
Lemma update_current (u : Update) (c c' : modal.Controller) (o : Output) :
  update u c = Some (c', o) -> modal.current c' = modal.current c.
Proof.
  destruct u; simpl; intros H;
    try (injection H as <- _; reflexivity).
  - unfold batteryOutput in H.
    destruct (battery.Status_ i); injection H as <- _; reflexivity.
  - unfold wlanOutput in H.
    destruct (negb (wlan.Connecting i) && negb (wlan.Connected i));
      [|destruct (wlan.Connecting i)]; injection H as <- _; reflexivity.
  - destruct (mediaFormatFunc m); [|discriminate].
    injection H as <- _. reflexivity.
Qed.

(** C2.  [SetOutput(k, s)] keeps the state of the controller and the keys
    of the modes, changes no mode other than [k], and in the mode [k]
    replaces the override segment only; and no update path of a module,
    those of the battery, wlan and weather modules included, changes which
    mode is expanded. *)
Theorem SetOutput_keeps_state :
  (forall (key : string) (seg : option Segment) (c : modal.Controller),
     modal.current (modal.SetOutput key seg c) = modal.current c
     /\ modal.keys (modal.modes (modal.SetOutput key seg c))
        = modal.keys (modal.modes c)
     /\ (forall k, k <> key ->
           modal.lookup k (modal.modes (modal.SetOutput key seg c))
           = modal.lookup k (modal.modes c))
     /\ (forall md, modal.lookup key (modal.modes c) = Some md ->
           modal.lookup key (modal.modes (modal.SetOutput key seg c))
           = Some (modal.mkMode seg (modal.summary md) (modal.detail md))))
  /\ (forall (u : Update) (c c' : modal.Controller) (o : Output),
        update u c = Some (c', o) ->
        modal.current c' = modal.current c
        /\ forall k, modal.isExpanded c' k = modal.isExpanded c k).
Proof.
  split.
  - intros key seg c. unfold modal.SetOutput. simpl. repeat split.
    + apply keys_onMode.
    + intros k Hk. rewrite lookup_onMode.
      destruct (String.eqb_spec k key); [contradiction|reflexivity].
    + intros md Hmd. rewrite lookup_onMode, String.eqb_refl, Hmd.
      reflexivity.
  - intros u c c' o H. apply update_current in H. split; [exact H|].
    intros k. unfold modal.isExpanded. now rewrite H.
Qed.

Lemma SetOutput_keeps_state_witness :
  modal.current
    (fst (batteryOutput
            (battery.mkInfo battery.Charging 50 0 0%float 0%float 0%float)
            (modal.Toggle "network" (snd (modal.Build modal.New)))))
  = modal.Expanded "network".
Proof.
  destruct SetOutput_keeps_state as [_ U].
  destruct (U (onBattery
                 (battery.mkInfo battery.Charging 50 0 0%float 0%float
                    0%float))
              (modal.Toggle "network" (snd (modal.Build modal.New)))
              _ _ eq_refl) as [H _].
  exact H.
Defined.

Lemma toggles_modes (ks : list string) (c : modal.Controller) :
  modal.modes (toggles ks c) = modal.modes c.
Proof.
  revert c. induction ks as [|k ks IH]; intros c; [reflexivity|].
  simpl. rewrite IH. unfold modal.Toggle.
  now destruct (modal.isExpanded c k).
Qed.

Lemma filter_eqb_absent (k : string) (l : list string) :
  ~ In k l -> filter (String.eqb k) l = [].
Proof.
  induction l as [|a l IH]; intros H; [reflexivity|]. simpl.
  destruct (String.eqb_spec k a) as [->|_].
  - exfalso. apply H. now left.
  - apply IH. intros Hin. apply H. now right.
Qed.

Lemma filter_eqb_NoDup (k : string) (l : list string) :
  NoDup l -> (List.length (filter (String.eqb k) l) <= 1)%nat.
Proof.
  induction 1 as [|a l Hin Hnd IH]; simpl; [lia|].
  destruct (String.eqb_spec k a) as [->|_]; [|exact IH].
  rewrite filter_eqb_absent by assumption. simpl. lia.
Qed.

Lemma expandedModes_le_1 (c : modal.Controller) :
  NoDup (modal.keys (modal.modes c)) ->
  (List.length (modal.expandedModes c) <= 1)%nat.
Proof.
  intros H. unfold modal.expandedModes, modal.isExpanded.
  destruct (modal.current c) as [|k].
  - induction (modal.keys (modal.modes c)); simpl; [lia|].
    apply IHl. now inversion H.
  - now apply filter_eqb_NoDup.
Qed.

Lemma isExpanded_unique (c : modal.Controller) (a b : string) :
  modal.isExpanded c a = true -> modal.isExpanded c b = true -> a = b.
Proof.
  unfold modal.isExpanded. destruct (modal.current c) as [|k];
    [discriminate|].
  intros Ha Hb. apply String.eqb_eq in Ha, Hb. congruence.
Qed.

Lemma Toggle_expanded (c : modal.Controller) (k : string) :
  modal.current c = modal.Expanded k ->
  modal.current (modal.Toggle k c) = modal.Collapsed.
Proof.
  intros H. unfold modal.Toggle, modal.isExpanded.
  now rewrite H, String.eqb_refl.
Qed.

Lemma Toggle_other (c : modal.Controller) (k : string) :
  modal.current c <> modal.Expanded k ->
  modal.current (modal.Toggle k c) = modal.Expanded k.
Proof.
  intros H. unfold modal.Toggle, modal.isExpanded.
  destruct (modal.current c) as [|k'] eqn:E; [reflexivity|].
  destruct (String.eqb_spec k' k) as [->|_]; [contradiction|reflexivity].
Qed.

Lemma modeKeys_NoDup : NoDup modeKeys.
Proof.
  unfold modeKeys.
  repeat (constructor; [simpl; intuition discriminate|]). constructor.
Qed.

(** What [main] hands to [barista.Run]. *)
Lemma main_controller (env : Env) (r : list BarModule * modal.Controller)
  (tr : list Event) :
  main env [] = Done r tr ->
  modal.current (snd r) = modal.Collapsed
  /\ modal.keys (modal.modes (snd r)) = modeKeys
  /\ observe tr = atRun.
Proof.
  intros H. pose proof (main_exec env [] eq_refl) as X.
  rewrite H in X. destruct X as (S & _ & _ & C & K). now repeat split.
Qed.

(** C1.  The controller that [mainModal.Build()] returns to [main] starts
    Collapsed.  After every sequence of [Toggle] calls at most one mode is
    expanded, of all keys and of the registered modes.  [Toggle(k)] from
    Expanded(k) gives Collapsed and from every other state Expanded(k); so
    [Toggle(A)] twice from the start, or from any state but Expanded(A),
    ends Collapsed, and [Toggle(A)] then [Toggle(B)], for distinct keys,
    ends in Expanded(B) with [A] not expanded. *)
Theorem modal_state_machine (env : Env)
  (r : list BarModule * modal.Controller) (tr : list Event) :
  main env [] = Done r tr ->
  let ctl := snd r in
  modal.current ctl = modal.Collapsed
  /\ (forall ks : list string,
        (forall a b,
           modal.isExpanded (toggles ks ctl) a = true ->
           modal.isExpanded (toggles ks ctl) b = true -> a = b)
        /\ (List.length (modal.expandedModes (toggles ks ctl)) <= 1)%nat)
  /\ (forall (c : modal.Controller) (k : string),
        (modal.current c = modal.Expanded k ->
         modal.current (modal.Toggle k c) = modal.Collapsed)
        /\ (modal.current c <> modal.Expanded k ->
            modal.current (modal.Toggle k c) = modal.Expanded k))
  /\ (forall A, modal.current (modal.Toggle A (modal.Toggle A ctl))
                = modal.Collapsed)
  /\ (forall (c : modal.Controller) (A : string),
        modal.current c <> modal.Expanded A ->
        modal.current (modal.Toggle A (modal.Toggle A c)) = modal.Collapsed)
  /\ (forall (c : modal.Controller) (A B : string),
        A <> B ->
        modal.current (modal.Toggle B (modal.Toggle A c)) = modal.Expanded B
        /\ modal.isExpanded (modal.Toggle B (modal.Toggle A c)) A = false).
Proof.
  intros H ctl. destruct (main_controller env r tr H) as (C & K & _).
  fold ctl in C, K.
  assert (Twice : forall (c : modal.Controller) (A : string),
            modal.current c <> modal.Expanded A ->
            modal.current (modal.Toggle A (modal.Toggle A c))
            = modal.Collapsed).
  { intros c A Hc. apply Toggle_expanded. now apply Toggle_other. }
  split; [exact C|].
  split.
  { intros ks. split; [apply isExpanded_unique|].
    apply expandedModes_le_1. rewrite toggles_modes, K.
    apply modeKeys_NoDup. }
  split.
  { intros c k. split; [apply Toggle_expanded|apply Toggle_other]. }
  split.
  { intros A. apply Twice. rewrite C. discriminate. }
  split; [exact Twice|].
  intros c A B Hab.
  assert (E : modal.current (modal.Toggle B (modal.Toggle A c))
              = modal.Expanded B).
  { apply Toggle_other. unfold modal.Toggle.
    destruct (modal.isExpanded c A); simpl; congruence. }
  split; [exact E|].
  unfold modal.isExpanded. rewrite E.
  destruct (String.eqb_spec B A); congruence.
Qed.

Lemma modal_state_machine_witness :
  exists r tr,
    main sampleEnv [] = Done r tr
    /\ modal.current (snd r) = modal.Collapsed
    /\ modal.current (modal.Toggle "battery" (modal.Toggle "battery" (snd r)))
       = modal.Collapsed
    /\ modal.current (modal.Toggle "network" (modal.Toggle "battery" (snd r)))
       = modal.Expanded "network".
Proof.
  destruct (main sampleEnv []) as [r tr|msg tr] eqn:E;
    [|vm_compute in E; discriminate E].
  exists r, tr. split; [reflexivity|].
  destruct (modal_state_machine sampleEnv r tr E)
    as (C & _ & _ & Twice & _ & Other).
  split; [exact C|]. split; [apply Twice|].
  apply Other. discriminate.
Defined.

(** ** Click handlers and registered modes *)

Lemma toggled_setColor (c : option Color) (s : Segment) :
  toggled (setColor c s) = toggled s.
Proof. reflexivity. Qed.

Lemma toggled_setUrgent (u : bool) (s : Segment) :
  toggled (setUrgent u s) = toggled s.
Proof. reflexivity. Qed.

Lemma toggled_threshold (s : Segment) (u : bool) (color : list bool) :
  toggled (threshold s u color) = toggled s.
Proof.
  unfold threshold. destruct u; [reflexivity|].
  now destruct (firstColor _ color).
Qed.

Lemma toggled_batteryColor (pct : Z) (s : Segment) :
  toggled (batteryColor pct s) = toggled s.
Proof.
  unfold batteryColor.
  repeat match goal with
         | |- context [if ?c then _ else _] => destruct c
         end; reflexivity.
Qed.


(** The output of a function that returns the controller with it. *)
Ltac from_pair H :=
  match type of H with
  | Some ?x = Some (_, ?o) =>
    injection H as H; replace o with (snd x) by now rewrite H
  end.

(** The keys toggled by the click handlers of an output are among the five
    of [toggledKeys]. *)
Lemma toggleKeys_update (u : Update) (c c' : modal.Controller) (o : Output)
  (k : string) :
  update u c = Some (c', o) -> In k (toggleKeys o) -> In k toggledKeys.
Proof.
  unfold toggledKeys.
  destruct u; simpl; intros H;
    try (unfold mediaFormatFunc in H;
         destruct (media.eqb _ _ || media.eqb _ _);
         [|destruct (mediaArtistTitle m) as [[artist title]|];
           [|discriminate H]]);
    first [from_pair H | injection H as _ <-];
    unfold batteryOutput, wlanOutput, weatherOutput, volOutput,
      loadAvgOutput, freeMemOutput, tempOutput, netOutput, formatDiskSpace;
    repeat match goal with
           | |- context [if ?c then _ else _] => destruct c
           | |- context [match battery.Status_ ?i with _ => _ end] =>
             destruct (battery.Status_ i)
           end;
    simpl; rewrite ?toggled_threshold, ?toggled_batteryColor; simpl;
    intuition.
Qed.

Lemma toggledKeys_reachable (k : string) :
  In k toggledKeys ->
  exists u, forall c, exists c' o,
    update u c = Some (c', o) /\ In k (toggleKeys o).
Proof.
  unfold toggledKeys. simpl.
  intros [<-|[<-|[<-|[<-|[<-|[]]]]]].
  - exists (onLocaltime 0). intros c. eexists _, _.
    split; [reflexivity|]. simpl. now left.
  - exists (onBattery
              (battery.mkInfo battery.Charging 50 0 0%float 0%float 0%float)).
    intros c. eexists _, _. split; [reflexivity|]. simpl. now left.
  - exists (onWlan (wlan.mkInfo false true "ssid" 0%float "mac")).
    intros c. eexists _, _. split; [reflexivity|]. simpl. now left.
  - exists (onKubeContext "minikube"). intros c. eexists _, _.
    split; [reflexivity|]. simpl. now left.
  - exists (onFreeMem (meminfo.mkInfo 8%float 0%float 1%float)).
    intros c. eexists _, _. split; [reflexivity|]. simpl. now left.
Qed.

(** C7.  When [main] reaches [barista.Run]: each of the five keys that click
    handlers toggle is a key of the controller, and its [mainModal.Mode]
    call is in the trace before [Build()]; every key that the click handler
    of any output of any module toggles is one of the five; and each of the
    five is toggled by some output. *)
Theorem toggled_modes_are_registered (env : Env)
  (r : list BarModule * modal.Controller) (tr : list Event) :
  main env [] = Done r tr ->
  (forall k, In k toggledKeys ->
     In k (modal.keys (modal.modes (snd r)))
     /\ registeredBeforeBuild k tr)
  /\ (forall (u : Update) (c c' : modal.Controller) (o : Output) (k : string),
        update u c = Some (c', o) -> In k (toggleKeys o) ->
        In k toggledKeys)
  /\ (forall k, In k toggledKeys ->
        exists u, forall c, exists c' o,
          update u c = Some (c', o) /\ In k (toggleKeys o)).
Proof.
  intros H. destruct (main_controller env r tr H) as (_ & K & S).
  split; [|split; [exact toggleKeys_update|exact toggledKeys_reachable]].
  intros k Hk.
  assert (Hreg : In k modeKeys).
  { unfold toggledKeys, modeKeys in *. simpl in *. intuition. }
  split; [now rewrite K|].
  apply registered_seen; rewrite S; [exact Hreg|reflexivity].
Qed.

Lemma toggled_modes_are_registered_witness :
  exists r tr,
    main sampleEnv [] = Done r tr
    /\ In "battery" (modal.keys (modal.modes (snd r)))
    /\ registeredBeforeBuild "battery" tr.
Proof.
  destruct (main sampleEnv []) as [r tr|msg tr] eqn:E;
    [|vm_compute in E; discriminate E].
  exists r, tr. split; [reflexivity|].
  destruct (toggled_modes_are_registered sampleEnv r tr E) as (R & _ & _).
  apply R. unfold toggledKeys. simpl. intuition.
Defined.

(** * Further properties of the code *)

(** ** [truncate]: bounds and idempotence *)

(** A string of at most [|l|] runes is returned as it is, whatever the sign
    of the limit. *)
Lemma truncate_short (s : string) (l : Z) :
  MinInt < l <= MaxInt ->
  runeCount s <= Z.abs l ->
  truncate s l = Some s.
Proof.
  unfold runeCount. intros Hl Hn.
  assert (Hmin : MinInt = - 2 ^ 63) by reflexivity.
  assert (Hmax : MaxInt = 2 ^ 63 - 1) by reflexivity.
  unfold truncate. destruct (Z.ltb_spec l 0).
  - unfold neg. rewrite wrap_id by lia.
    destruct (Z.leb_spec (Z.of_nat (List.length (runes s))) (- l));
      [reflexivity|lia].
  - destruct (Z.leb_spec (Z.of_nat (List.length (runes s))) l);
      [reflexivity|lia].
Qed.

Lemma truncate_runes_le (s t : string) (l : Z) :
  MinInt < l <= MaxInt -> len s <= MaxInt -> l <> 0 ->
  truncate s l = Some t ->
  runeCount t <= Z.abs l /\ runeCount t <= runeCount s.
Proof.
  intros Hl Hs Hnz Ht. unfold runeCount.
  destruct (truncate_cases s l ltac:(lia) Hs Hnz) as (H1 & H2 & H3).
  destruct (Z.le_gt_cases (runeCount s) (Z.abs l)) as [Hle|Hgt].
  - rewrite truncate_short in Ht by assumption.
    injection Ht as <-. unfold runeCount in Hle. lia.
  - unfold runeCount in Hgt.
    destruct (Z.lt_trichotomy l 0) as [Hneg|[H0|Hpos]]; [|lia|].
    + destruct (H3 Hneg ltac:(lia)) as (t' & Ht' & _ & _ & Hlen).
      rewrite Ht in Ht'. injection Ht' as <-. lia.
    + destruct (H2 Hpos ltac:(lia)) as (t' & Ht' & _ & _ & Hlen).
      rewrite Ht in Ht'. injection Ht' as <-. lia.
Qed.

(** X1.  Whatever [truncate] returns for a limit [l] has at most [|l|]
    runes and no more runes than its input. *)
Theorem truncate_rune_bound (s t : string) (l : Z) :
  MinInt < l <= MaxInt -> len s <= MaxInt -> l <> 0 ->
  truncate s l = Some t ->
  runeCount t <= Z.abs l /\ runeCount t <= runeCount s.
Proof. exact (truncate_runes_le s t l). Qed.

Lemma truncate_rune_bound_witness :
  runeCount "abcd⋯" <= Z.abs 5 /\ runeCount "abcd⋯" <= runeCount "abcdefghij".
Proof.
  apply (truncate_rune_bound "abcdefghij" "abcd⋯" 5).
  - unfold MinInt, MaxInt, intSize. lia.
  - unfold len, MaxInt, intSize. simpl. lia.
  - lia.
  - vm_compute. reflexivity.
Defined.

(** X2.  [truncate] is idempotent: cutting its result again with the same
    limit changes nothing. *)
Theorem truncate_idempotent (s t : string) (l : Z) :
  MinInt < l <= MaxInt -> len s <= MaxInt -> l <> 0 ->
  truncate s l = Some t ->
  truncate t l = Some t.
Proof.
  intros Hl Hs Hnz Ht. apply truncate_short; [exact Hl|].
  destruct (truncate_cases s l ltac:(lia) Hs Hnz) as (H1 & H2 & H3).
  destruct (Z.le_gt_cases (runeCount s) (Z.abs l)) as [Hle|Hgt].
  - rewrite truncate_short in Ht by assumption. now injection Ht as <-.
  - unfold runeCount in *.
    destruct (Z.lt_trichotomy l 0) as [Hneg|[H0|Hpos]]; [|lia|].
    + destruct (H3 Hneg ltac:(lia)) as (t' & Ht' & _ & _ & Hlen).
      rewrite Ht in Ht'. injection Ht' as <-. lia.
    + destruct (H2 Hpos ltac:(lia)) as (t' & Ht' & _ & _ & Hlen).
      rewrite Ht in Ht'. injection Ht' as <-. lia.
Qed.

Lemma truncate_idempotent_witness :
  truncate "⋯ghij" (-5) = Some "⋯ghij".
Proof.
  apply (truncate_idempotent "abcdefghij" "⋯ghij" (-5)).
  - unfold MinInt, MaxInt, intSize. lia.
  - unfold len, MaxInt, intSize. simpl. lia.
  - lia.
  - vm_compute. reflexivity.
Defined.

(** ** [mediaFormatFunc]: when the budget is kept *)






(** *** Artists of ASCII letters *)






(** ** [threshold] *)

(** X5.  [threshold] never touches the text or the click handler of a
    segment.  With the urgent flag it marks the segment urgent and leaves
    its colour; without it the urgency is kept and the colour is that of
    the first flag set, in the order bad, degraded, good; flags after the
    third are ignored, and with no flag set the colour is kept. *)
Theorem threshold_fields (out : Segment) (u : bool) (flags : list bool) :
  nodes (threshold out u flags) = nodes out
  /\ onClick (threshold out u flags) = onClick out
  /\ urgent (threshold out u flags) = u || urgent out
  /\ color (threshold out u flags)
     = (if u then color out
        else match flags with
             | true :: _ => Some (Scheme "bad")
             | false :: true :: _ => Some (Scheme "degraded")
             | false :: false :: true :: _ => Some (Scheme "good")
             | _ => color out
             end).
Proof.
  unfold threshold. destruct u; [now repeat split|].
  destruct flags as [|[|] [|[|] [|[|] rest]]]; now repeat split.
Qed.

(** ** The battery *)

(** X6.  For a charge from 0 to 100 percent the icon name the battery
    function builds is one of the 22 battery icons of the font; from 100
    percent on it is the plain battery, charging or not. *)
Theorem batteryIconName_known (i : battery.Info) :
  (0 <= battery.RemainingPct i <= 100 ->
   In (batteryIconName i) batteryIcons)
  /\ (100 <= battery.RemainingPct i ->
      batteryIconName i = "battery"
      \/ batteryIconName i = "battery-charging").
Proof.
  unfold batteryIconName. split.
  - intros H.
    assert (T : 0 <= Z.quot (battery.RemainingPct i) 10 <= 10).
    { rewrite Z.quot_div_nonneg by lia. split.
      - apply Z.div_pos; lia.
      - apply Z.div_le_upper_bound; lia. }
    remember (Z.quot (battery.RemainingPct i) 10) as t eqn:Et. clear Et H.
    assert (C : t = 0 \/ t = 1 \/ t = 2 \/ t = 3 \/ t = 4 \/ t = 5 \/ t = 6
                \/ t = 7 \/ t = 8 \/ t = 9 \/ t = 10) by lia.
    destruct (battery.Status_ i);
      repeat (destruct C as [->|C]; [vm_compute; tauto|]);
      subst t; vm_compute; tauto.
  - intros H.
    assert (T : 10 <= Z.quot (battery.RemainingPct i) 10).
    { rewrite Z.quot_div_nonneg by lia. apply Z.div_le_lower_bound; lia. }
    destruct (Z.eqb_spec (Z.quot (battery.RemainingPct i) 10) 0); [lia|].
    destruct (Z.ltb_spec (Z.quot (battery.RemainingPct i) 10) 10); [lia|].
    destruct (battery.Status_ i); auto.
Qed.

Lemma batteryIconName_known_witness :
  In (batteryIconName halfCharged) batteryIcons.
Proof.
  apply (batteryIconName_known halfCharged). vm_compute.
  split; discriminate.
Defined.

(** ** The switcher icon and the modes after an update *)

Lemma switcherIcon_SetOutput (c : modal.Controller) (key name : string)
  (md : modal.Mode) :
  modal.lookup key (modal.modes c) = Some md ->
  switcherIcon (modal.SetOutput key (Some (makeIconOutput name)) c) key
  = Some name.
Proof.
  intros H. unfold switcherIcon, modal.SetOutput. cbn [modal.modes].
  rewrite lookup_onMode, String.eqb_refl, H. reflexivity.
Qed.

Lemma nodes_batteryColor (pct : Z) (s : Segment) :
  nodes (batteryColor pct s) = nodes s.
Proof.
  unfold batteryColor.
  repeat match goal with
         | |- context [if ?c then _ else _] => destruct c
         end; reflexivity.
Qed.

(** X7.  When the modes are registered, the icon a module pushes into the
    switcher is the icon that opens its own output: for the battery and
    the weather whenever they show something, and for the wlan the wifi
    icon; a wlan that is neither connecting nor connected shows nothing and
    pushes the ethernet icon. *)
Theorem switcher_icon_follows_output (c : modal.Controller) :
  (forall (i : battery.Info) (md : modal.Mode),
     modal.lookup "battery" (modal.modes c) = Some md ->
     snd (batteryOutput i c) <> Nil ->
     switcherIcon (fst (batteryOutput i c)) "battery"
     = firstIcon (snd (batteryOutput i c))
     /\ firstIcon (snd (batteryOutput i c))
        = Some ("mdi-" +:+ batteryIconName i))
  /\ (forall (w : weather.Weather) (now : Z) (md : modal.Mode),
        modal.lookup "weather" (modal.modes c) = Some md ->
        switcherIcon (fst (weatherOutput w now c)) "weather"
        = firstIcon (snd (weatherOutput w now c))
        /\ firstIcon (snd (weatherOutput w now c))
           = Some ("mdi-" +:+ weatherIconName w now))
  /\ (forall (i : wlan.Info) (md : modal.Mode),
        modal.lookup "network" (modal.modes c) = Some md ->
        if negb (wlan.Connecting i) && negb (wlan.Connected i)
        then snd (wlanOutput i c) = Nil
             /\ switcherIcon (fst (wlanOutput i c)) "network"
                = Some "mdi-ethernet"
        else switcherIcon (fst (wlanOutput i c)) "network" = Some "mdi-wifi"
             /\ firstIcon (snd (wlanOutput i c)) = Some "mdi-wifi").
Proof.
  split; [|split].
  - intros i md Hmd. unfold batteryOutput.
    destruct (battery.Status_ i); cbn [fst snd]; intros Hnil;
      try congruence;
      rewrite (switcherIcon_SetOutput _ _ _ md Hmd);
      unfold Group, firstIcon; cbn [map];
      rewrite nodes_batteryColor; split; reflexivity.
  - intros w now md Hmd. unfold weatherOutput. cbn [fst snd].
    split; [rewrite (switcherIcon_SetOutput _ _ _ md Hmd)|]; reflexivity.
  - intros i md Hmd. unfold wlanOutput.
    destruct (negb (wlan.Connecting i) && negb (wlan.Connected i)).
    + cbn [fst snd]. split; [reflexivity|].
      now rewrite (switcherIcon_SetOutput _ _ _ md Hmd).
    + destruct (wlan.Connecting i); cbn [fst snd];
        (split; [now rewrite (switcherIcon_SetOutput _ _ _ md Hmd)|]);
        reflexivity.
Qed.

Lemma switcher_icon_follows_output_witness :
  switcherIcon (fst (batteryOutput halfCharged sevenModes)) "battery"
  = Some "mdi-battery-charging-50".
Proof.
  destruct (switcher_icon_follows_output sevenModes) as (B & _ & _).
  destruct (B halfCharged (modal.mkMode None [] [])) as [E1 E2].
  - reflexivity.
  - discriminate.
  - rewrite E1, E2. reflexivity.
Defined.

(** What an update may do to the controller. *)
Lemma update_controller (u : Update) (c c' : modal.Controller) (o : Output) :
  update u c = Some (c', o) ->
  c' = c
  \/ exists key seg,
       In key ["battery"; "network"; "weather"]
       /\ c' = modal.SetOutput key seg c.
Proof.
  destruct u; simpl; intros H;
    try (injection H as <- _; now left).
  - unfold batteryOutput in H.
    destruct (battery.Status_ i); injection H as <- _;
      solve [now left | right; eexists _, _; split; [|reflexivity];
                        simpl; tauto].
  - unfold wlanOutput in H.
    destruct (negb (wlan.Connecting i) && negb (wlan.Connected i));
      [|destruct (wlan.Connecting i)]; injection H as <- _;
      right; eexists _, _; (split; [|reflexivity]); simpl; tauto.
  - unfold weatherOutput in H. injection H as <- _.
    right. eexists _, _. split; [|reflexivity]. simpl. tauto.
  - destruct (mediaFormatFunc m); [|discriminate].
    injection H as <- _. now left.
Qed.

(** X8.  No update of any module adds, removes or reorders modes, or
    changes the summary or detail modules of a mode; and the modes other
    than battery, network and weather are left exactly as they were. *)
Theorem update_keeps_modes (u : Update) (c c' : modal.Controller)
  (o : Output) :
  update u c = Some (c', o) ->
  modal.keys (modal.modes c') = modal.keys (modal.modes c)
  /\ (forall k, ~ In k ["battery"; "network"; "weather"] ->
        modal.lookup k (modal.modes c') = modal.lookup k (modal.modes c))
  /\ (forall k md, modal.lookup k (modal.modes c) = Some md ->
        exists md',
          modal.lookup k (modal.modes c') = Some md'
          /\ modal.summary md' = modal.summary md
          /\ modal.detail md' = modal.detail md).
Proof.
  intros H. destruct (update_controller u c c' o H)
    as [->|(key & seg & Hkey & ->)].
  - split; [reflexivity|]. split; [reflexivity|].
    intros k md Hk. now exists md.
  - unfold modal.SetOutput. cbn [modal.modes].
    split; [apply keys_onMode|]. split.
    + intros k Hk. rewrite lookup_onMode.
      destruct (String.eqb_spec k key) as [->|_]; [contradiction|reflexivity].
    + intros k md Hk. rewrite lookup_onMode, Hk.
      destruct (String.eqb k key); eexists; split; try reflexivity;
        split; reflexivity.
Qed.

Lemma update_keeps_modes_witness :
  modal.keys (modal.modes (fst (batteryOutput halfCharged sevenModes)))
  = modeKeys.
Proof.
  destruct (update_keeps_modes (onBattery halfCharged) sevenModes
              _ _ eq_refl) as (K & _ & _).
  exact K.
Defined.

(** ** The load average *)

(** X9.  In the first ten minutes after boot the load average has no
    colour, no urgency and no click handler, whatever the load; from ten
    minutes on a left click on it always toggles the sysinfo mode. *)
Theorem loadAvg_quiet_after_boot (s : sysinfo.Info) :
  (sysinfo.Uptime s < 10 * minute ->
   exists seg,
     loadAvgOutput s = Out None [seg]
     /\ color seg = None /\ urgent seg = false /\ onClick seg = None)
  /\ (10 * minute <= sysinfo.Uptime s ->
      exists seg,
        loadAvgOutput s = Out None [seg]
        /\ onClick seg = Some (Toggle "sysinfo")).
Proof.
  unfold loadAvgOutput. split; intros H.
  - destruct (Z.ltb_spec (sysinfo.Uptime s) (10 * minute)); [|lia].
    eexists. split; [reflexivity|]. now repeat split.
  - destruct (Z.ltb_spec (sysinfo.Uptime s) (10 * minute)); [lia|].
    eexists. split; [reflexivity|]. reflexivity.
Qed.

Lemma loadAvg_quiet_after_boot_witness :
  toggleKeys (loadAvgOutput justBooted) = []
  /\ toggleKeys (loadAvgOutput longUp) = ["sysinfo"].
Proof.
  destruct (loadAvg_quiet_after_boot justBooted) as [Q _].
  destruct (loadAvg_quiet_after_boot longUp) as [_ L].
  split.
  - destruct Q as (seg & E & _ & _ & C); [vm_compute; reflexivity|].
    rewrite E. unfold toggleKeys, toggled. simpl. now rewrite C.
  - destruct L as (seg & E & C); [vm_compute; discriminate|].
    rewrite E. unfold toggleKeys, toggled. simpl. now rewrite C.
Defined.

(** ** [setupOauthEncryption] *)

(** [setupOauthEncryption] by the three courses it can take. *)
Lemma setupOauthEncryption_run (env : Env) (tr : list Event) :
  setupOauthEncryption env tr
  = let get := KeyringGet "barista-cv" (keyringUser env) in
    match storedKey env with
    | Some key => Done None (tr ++ [get; SetEncryptionKey key])
    | None =>
      match randRead env with
      | inl key =>
        Done None
          (tr ++ [get; RandRead;
                  KeyringSet "barista-cv" (keyringUser env)
                    (EncodeToString env key);
                  SetEncryptionKey key])
      | inr err => Done (Some err) (tr ++ [get; RandRead])
      end
    end.
Proof.
  unfold storedKey, keyringUser.
  unfold setupOauthEncryption, bind, ask, emit, ret. cbv zeta.
  destruct (match keyringGet env with
            | Some s => DecodeString env s
            | None => None
            end); [|destruct (randRead env)];
    rewrite <- !app_assoc; reflexivity.
Qed.

(** X10.  [setupOauthEncryption] never panics.  A stored key that decodes
    is set as the encryption key and nothing else is done; without one, a
    fresh key is read, stored encoded in the keyring and then set; and when
    reading random bytes fails, that error is returned and neither
    [keyring.Set] nor [oauth.SetEncryptionKey] is called.  The keyring is
    asked under the name of the user, or under "user-<uid>" when the user
    is unknown. *)
Theorem setupOauthEncryption_cases (env : Env) (tr : list Event) :
  let get := KeyringGet "barista-cv" (keyringUser env) in
  (forall key, storedKey env = Some key ->
     setupOauthEncryption env tr
     = Done None (tr ++ [get; SetEncryptionKey key]))
  /\ (forall key, storedKey env = None -> randRead env = inl key ->
        setupOauthEncryption env tr
        = Done None
            (tr ++ [get; RandRead;
                    KeyringSet "barista-cv" (keyringUser env)
                      (EncodeToString env key);
                    SetEncryptionKey key]))
  /\ (forall err, storedKey env = None -> randRead env = inr err ->
        setupOauthEncryption env tr = Done (Some err) (tr ++ [get; RandRead])).
Proof.
  intros get. rewrite setupOauthEncryption_run. fold get.
  repeat split; intros k H; try intros H'; rewrite H; try rewrite H';
    reflexivity.
Qed.

Lemma setupOauthEncryption_cases_witness :
  setupOauthEncryption sampleEnv []
  = Done None [KeyringGet "barista-cv" "cv"; SetEncryptionKey "c2VjcmV0"]
  /\ setupOauthEncryption freshKeyEnv []
     = Done None [KeyringGet "barista-cv" "user-1000"; RandRead;
                  KeyringSet "barista-cv" "user-1000" "b64:random";
                  SetEncryptionKey "random"]
  /\ setupOauthEncryption noSecretEnv []
     = Done (Some "EOF") [KeyringGet "barista-cv" "cv"; RandRead].
Proof.
  split; [|split].
  - apply (setupOauthEncryption_cases sampleEnv []). reflexivity.
  - apply (setupOauthEncryption_cases freshKeyEnv []); reflexivity.
  - apply (setupOauthEncryption_cases noSecretEnv []); reflexivity.
Defined.

(** ** [deviceForMountPath] *)

Lemma Split_not_nil (s : string) (sep : ascii) : Split s sep <> [].
Proof.
  destruct s as [|c s]; simpl; [discriminate|].
  destruct (Ascii.eqb c sep); [discriminate|].
  destruct (Split s sep); discriminate.
Qed.




(** Joining the parts with the separator gives the string back. *)
Lemma concat_Split (s : string) (sep : ascii) :
  String.concat (String sep EmptyString) (Split s sep) = s.
Proof.
  induction s as [|c s IH]; [reflexivity|]. simpl.
  pose proof (Split_not_nil s sep).
  destruct (Ascii.eqb_spec c sep) as [->|_].
  - destruct (Split s sep) as [|h t]; [contradiction|].
    simpl in *. now rewrite IH.
  - destruct (Split s sep) as [|h [|h' t]]; [contradiction| |];
      simpl in *; now rewrite <- IH.
Qed.

(** [deviceForMountPath] returns [deviceOf] and runs [df] and, when there
    is a second line, [realpath]; it never panics. *)
Lemma deviceForMountPath_result (env : Env) (path : string)
  (tr : list Event) :
  exists evs,
    deviceForMountPath path env tr = Done (deviceOf env path) (tr ++ evs)
    /\ forallb (fun e => match e with Exec _ => true | _ => false end) evs
       = true.
Proof.
  unfold deviceForMountPath, deviceOf, command, bind, ask, emit, ret.
  destruct (Split (execOutput env ["df"; "-P"; path]) newline)
    as [|line0 [|line1 rest]].
  - now exists [Exec ["df"; "-P"; path]].
  - now exists [Exec ["df"; "-P"; path]].
  - exists [Exec ["df"; "-P"; path];
            Exec ["realpath"; hd EmptyString (Split line1 space)]].
    rewrite <- app_assoc. simpl.
    destruct (negb _); split; reflexivity.
Qed.



(** ** Running [main] against another view of the trace *)

Section Watch.
Context {S : Type}.
Variables (step : S -> Event -> S) (init : S) (env : Env).

Lemma watch_snoc (tr : list Event) (e : Event) :
  watch step init (tr ++ [e]) = step (watch step init tr) e.
Proof. unfold watch. now rewrite fold_left_app. Qed.

Lemma watch_boring (s : S) (evs : list Event) :
  quietAt step s -> forallb boring evs = true -> fold_left step evs s = s.
Proof.
  intros Hq. induction evs as [|e evs IH]; intros H; [reflexivity|].
  simpl in H. apply andb_true_iff in H. destruct H as [He Hevs].
  simpl. rewrite (Hq e He). now apply IH.
Qed.

Lemma runs_ret {A} (Q : A -> S -> Prop) (E : S -> Prop) (s : S) (a : A) :
  Q a s -> runs step init env s (ret a) Q E.
Proof. intros H tr <-. exact H. Qed.

Lemma runs_panic {A} (Q : A -> S -> Prop) (E : S -> Prop) (s : S)
  (msg : string) :
  E s -> runs step init env s (panic msg) Q E.
Proof. intros H tr <-. exact H. Qed.

Lemma runs_ask {A} (Q : A -> S -> Prop) (E : S -> Prop) (s : S)
  (f : Env -> A) :
  Q (f env) s -> runs step init env s (ask f) Q E.
Proof. intros H tr <-. exact H. Qed.

Lemma runs_emit (Q : unit -> S -> Prop) (E : S -> Prop) (s : S)
  (e : Event) :
  Q tt (step s e) -> runs step init env s (emit e) Q E.
Proof. intros H tr <-. unfold emit. now rewrite watch_snoc. Qed.

Lemma runs_bind {A B} (Q : A -> S -> Prop) (E : S -> Prop) (s : S)
  (m : M B) (k : B -> M A) :
  runs step init env s m (fun b s' => runs step init env s' (k b) Q E) E ->
  runs step init env s (bind m k) Q E.
Proof.
  intros H tr Hs. specialize (H tr Hs). unfold bind.
  destruct (m env tr) as [b tr'|msg tr']; [|exact H].
  now apply H.
Qed.

Lemma runs_construct (Q : BarModule -> S -> Prop) (E : S -> Prop) (s : S)
  (m : BarModule) :
  Q m (step s (Construct m)) -> runs step init env s (construct m) Q E.
Proof.
  intros H. unfold construct. apply runs_bind, runs_emit, runs_ret. exact H.
Qed.

Lemma runs_mode (Q : modal.Modal -> S -> Prop) (E : S -> Prop) (s : S)
  (key : string) (m : modal.Modal) :
  Q (modal.Mode_ key m) (step s (ModalMode key)) ->
  runs step init env s (mode key m) Q E.
Proof.
  intros H. unfold mode. apply runs_bind, runs_emit, runs_ret. exact H.
Qed.

Lemma runs_home (Q : string -> S -> Prop) (E : S -> Prop) (s : S)
  (path : list string) :
  match userCurrent env with
  | Some u => Q (Join env (HomeDir u :: path)) s
  | None => E s
  end ->
  runs step init env s (home path) Q E.
Proof.
  intros H. unfold home. apply runs_bind, runs_ask.
  destruct (userCurrent env).
  - apply runs_bind, runs_ask, runs_ret, H.
  - apply runs_panic, H.
Qed.

Lemma runs_deviceForMountPath (Q : string -> S -> Prop) (E : S -> Prop)
  (s : S) (path : string) :
  quietAt step s -> Q (deviceOf env path) s ->
  runs step init env s (deviceForMountPath path) Q E.
Proof.
  intros Hq HQ tr Htr.
  destruct (deviceForMountPath_result env path tr) as (evs & R & B).
  rewrite R. unfold watch in *. rewrite fold_left_app, Htr.
  rewrite watch_boring; [exact HQ|exact Hq|].
  clear R. induction evs as [|e evs IH]; [reflexivity|].
  simpl in B |- *. destruct e; try discriminate. now apply IH.
Qed.

Lemma runs_setupOauthEncryption (Q : option string -> S -> Prop)
  (E : S -> Prop) (s : S) :
  quietAt step s ->
  (forall err, (oauthFails env <-> err <> None) -> Q err s) ->
  runs step init env s setupOauthEncryption Q E.
Proof.
  intros Hq HQ tr Htr.
  assert (Fails : forall err,
            (forall tr1, exists evs,
               setupOauthEncryption env tr1 = Done err (tr1 ++ evs)) ->
            (oauthFails env <-> err <> None)).
  { intros err R. split.
    - intros (tr1 & e & tr1' & F). destruct (R tr1) as (evs & R1).
      rewrite R1 in F. injection F as -> _. discriminate.
    - intros Herr. destruct err as [e|]; [|congruence].
      destruct (R []) as (evs & R1). now exists [], e, ([] ++ evs). }
  rewrite setupOauthEncryption_run. cbv zeta.
  destruct (storedKey env) as [key|] eqn:Ek;
    [|destruct (randRead env) as [key|err] eqn:Er];
    unfold watch in *; rewrite fold_left_app, Htr;
    (rewrite watch_boring; [|exact Hq|reflexivity]);
    apply HQ, Fails; intros tr1; rewrite setupOauthEncryption_run, Ek;
    try rewrite Er; cbv zeta; eexists; reflexivity.
Qed.

Lemma runs_makeTzClock (Q : BarModule -> S -> Prop) (E : S -> Prop) (s : S)
  (lbl tzName : string) :
  (ZoneByName env tzName = true ->
   Q (tzClock lbl tzName) (step s (Construct (tzClock lbl tzName)))) ->
  (ZoneByName env tzName = false -> E s) ->
  runs step init env s (makeTzClock lbl tzName) Q E.
Proof.
  intros HQ HE. unfold makeTzClock. apply runs_bind, runs_ask.
  destruct (ZoneByName env tzName).
  - apply runs_construct. now apply HQ.
  - apply runs_panic. now apply HE.
Qed.

End Watch.

Ltac note_step :=
  cbv beta; cbv [note notable isRun shown ran afterRun app orb started].

Ltac quiet_goal :=
  let e := fresh "e" in
  let He := fresh "He" in
  intros e He; destruct e; try discriminate He; reflexivity.

Ltac find_in := solve [repeat (first [left; reflexivity | right])].

(** One statement of [main], seen through [note]. *)
Ltac wstep env :=
  lazymatch goal with
  | |- runs _ _ _ _ (bind (emit _) _) _ _ =>
    apply runs_bind, runs_emit; note_step
  | |- runs _ _ _ _ (bind (ask _) _) _ _ =>
    apply runs_bind, runs_ask; note_step
  | |- runs _ _ _ _ (bind (ret _) _) _ _ =>
    apply runs_bind, runs_ret; note_step
  | |- runs _ _ _ _ (bind (construct _) _) _ _ =>
    apply runs_bind, runs_construct; note_step
  | |- runs _ _ _ _ (bind (mode _ _) _) _ _ =>
    apply runs_bind, runs_mode; note_step
  | |- runs _ _ _ _ (bind (home _) _) _ _ =>
    apply runs_bind, runs_home;
    lazymatch goal with
    | H : userCurrent env = Some _ |- _ => rewrite H; note_step
    | _ =>
      let Hu := fresh "Hu" in
      destruct (userCurrent env) eqn:Hu; [note_step|now left]
    end
  | |- runs _ _ _ _ (bind (deviceForMountPath _) _) _ _ =>
    apply runs_bind, runs_deviceForMountPath; [quiet_goal|note_step]
  | |- runs _ _ _ _ (bind setupOauthEncryption _) _ _ =>
    apply runs_bind, runs_setupOauthEncryption;
    [quiet_goal|intros ? ?; note_step]
  | |- runs _ _ _ _ (bind (makeTzClock _ ?tz) _) _ _ =>
    apply runs_bind, runs_makeTzClock;
    [ intros ?; note_step
    | let Hz := fresh "Hz" in
      intros Hz; right; right; exists tz; split; [simpl; tauto|exact Hz] ]
  | |- runs _ _ _ _ (bind (if ?c then _ else _) _) _ _ =>
    apply runs_bind; destruct c eqn:?
  | |- runs _ _ _ _ (bind (bind _ _) _) _ _ => apply runs_bind
  | |- runs _ _ _ _ (match ?x with Some _ => _ | None => _ end) _ _ =>
    destruct x
  | H : _ <-> Some _ <> None |- runs _ _ _ _ (panic _) _ _ =>
    apply runs_panic; right; left; apply H; discriminate
  | |- runs _ _ _ _ (emit _) (fun _ _ => _) _ => apply runs_emit; note_step
  | |- runs _ _ _ _ (ret _) (fun _ _ => _) _ => apply runs_ret; note_step
  | |- runs _ _ _ _ (let x := _ in _) _ _ => cbv zeta
  end.

Lemma main_started (env : Env) :
  runs note started env started main (mainStarted env)
       (fun _ => panicCause env).
Proof.
  unfold main, started.
  repeat wstep env.
  all: cbv [modal.Build].
  all: apply runs_bind, runs_emit; note_step; apply runs_ret.
  all: unfold mainStarted; cbn [snd fst shown ran afterRun].
  all: split;
    [ intros [U|[F|(tz & Hin & Hz)]];
      [ congruence
      | match goal with H : _ <-> None <> None |- _ => apply H in F end;
        congruence
      | cbv [timezones In] in Hin;
        repeat destruct Hin as [<-|Hin]; congruence ] |].
  all: split; [reflexivity|]. all: split; [reflexivity|].
  all: split; [reflexivity|]. all: split; [reflexivity|].
  all: generalize (netlinkName env); intros iface.
  all: generalize (TrimPrefix (deviceOf env "/") "/dev/"); intros dev.
  all: match goal with
       | |- context [shownModules ?r] =>
         let v := eval vm_compute in (shownModules r) in
         change (shownModules r) with v
       end.
  all: match goal with
       | |- context [modulesBuilt ?l] =>
         let v := eval vm_compute in (modulesBuilt l) in
         change (modulesBuilt l) with v
       end.
  all: split;
    [ intros m; split;
      [ intros Hm; cbv [In] in Hm;
        repeat destruct Hm as [<-|Hm]; try contradiction;
        (split; [find_in|discriminate])
      | intros [Hm Hg]; cbv [In] in Hm; repeat destruct Hm as [<-|Hm];
        try contradiction; try (exfalso; apply Hg; reflexivity); find_in ] |].
  all: split;
    [ repeat (constructor;
              [ let Hin := fresh "Hin" in
                intros Hin; cbv [In] in Hin;
                repeat destruct Hin as [Hin|Hin];
                solve [discriminate Hin | contradiction | congruence] |]);
      constructor |].
  all: unfold homeSeparate; rewrite Hu;
    match goal with
    | Hc : negb _ = _ |- _ => rewrite Hc
    end.
  all: split;
    [ split;
      [ first [ reflexivity
              | let Hin := fresh "Hin" in
                intros Hin; cbv [In] in Hin;
                repeat destruct Hin as [Hin|Hin];
                solve [discriminate Hin | contradiction] ]
      | first [ discriminate | intros _; find_in ] ] |].
  all: first [ discriminate | intros _ ].
  all: match goal with
       | |- context [modal.lookup ?k ?m] =>
         let v := eval vm_compute in (modal.lookup k m) in
         change (modal.lookup k m) with v
       end.
  all: eexists; split; [reflexivity|]; cbn [modal.summary modal.detail];
    split; find_in.
Qed.

(** *** From the view to the trace *)

Lemma shown_watch (tr : list Event) :
  shown (watch note started tr) = filter notable tr.
Proof.
  induction tr as [|e tr IH] using rev_ind; [reflexivity|].
  rewrite watch_snoc, filter_app. unfold note at 1. cbn [shown].
  rewrite IH. simpl. destruct (notable e); [reflexivity|].
  now rewrite app_nil_r.
Qed.

Lemma modulesBuilt_notable (tr : list Event) :
  modulesBuilt (filter notable tr) = modulesBuilt tr.
Proof.
  induction tr as [|e tr IH]; [reflexivity|].
  destruct e; simpl; rewrite ?IH; reflexivity.
Qed.

Lemma In_modulesBuilt (tr : list Event) (m : BarModule) :
  In m (modulesBuilt tr) <-> In (Construct m) tr.
Proof.
  unfold modulesBuilt. rewrite in_flat_map. split.
  - intros (e & He & Hm). destruct e; try contradiction.
    destruct Hm as [<-|[]]. exact He.
  - intros H. exists (Construct m). split; [exact H|now left].
Qed.

Lemma ran_watch (tr : list Event) :
  ran (watch note started tr) = false -> forall ms, ~ In (Run ms) tr.
Proof.
  induction tr as [|e tr IH] using rev_ind; intros H ms Hin;
    [contradiction|].
  rewrite watch_snoc in H. unfold note in H. cbn [ran] in H.
  apply orb_false_iff in H. destruct H as [H He].
  apply in_app_or in Hin. destruct Hin as [Hin|[->|[]]].
  - exact (IH H ms Hin).
  - discriminate He.
Qed.

Lemma runs_last (tr : list Event) :
  ran (watch note started tr) = true ->
  afterRun (watch note started tr) = false ->
  exists pre ms, tr = pre ++ [Run ms] /\ forall ms', ~ In (Run ms') pre.
Proof.
  destruct tr as [|e tr] using rev_ind; intros Hr Ha; [discriminate Hr|].
  rewrite watch_snoc in Hr, Ha. unfold note in Hr, Ha.
  cbn [ran afterRun] in Hr, Ha.
  apply orb_false_iff in Ha. destruct Ha as [_ Ha].
  rewrite Ha in Hr. simpl in Hr.
  destruct e; try discriminate Hr.
  exists tr, ms. split; [reflexivity|]. now apply ran_watch.
Qed.

Lemma runCalls_none (tr : list Event) :
  (forall ms, ~ In (Run ms) tr) -> runCalls tr = [].
Proof.
  induction tr as [|e tr IH]; intros H; [reflexivity|].
  assert (T : runCalls tr = [])
    by (apply IH; intros ms Hin; apply (H ms); now right).
  destruct e; try exact T.
  exfalso. eapply H. left. reflexivity.
Qed.

(** What [main_started] says of a run that reaches the render loop. *)
Lemma main_done (env : Env) (r : list BarModule * modal.Controller)
  (tr : list Event) :
  main env [] = Done r tr -> mainStarted env r (watch note started tr).
Proof.
  intros H. pose proof (main_started env [] eq_refl) as X.
  now rewrite H in X.
Qed.

(** ** Why and when [main] panics *)



(** ** The start-up sequence *)

(** X13.  When [main] does not panic, [barista.Run] is its last call and
    its only one, with the modal group, the date and the time, in that
    order. *)
Theorem main_runs_once (env : Env) (r : list BarModule * modal.Controller)
  (tr : list Event) :
  main env [] = Done r tr ->
  fst r = [modalGroup; localdate; localtime]
  /\ exists pre,
       tr = pre ++ [Run (fst r)] /\ forall ms, ~ In (Run ms) pre.
Proof.
  intros H.
  destruct (main_done env r tr H) as (_ & Hr & Ha & Hc & Hf & _).
  split; [exact Hf|].
  destruct (runs_last tr Hr Ha) as (pre & ms & -> & Hpre).
  exists pre. split; [|exact Hpre].
  rewrite shown_watch, filter_app in Hc. unfold runCalls in Hc.
  rewrite flat_map_app in Hc. fold (runCalls (filter notable pre)) in Hc.
  rewrite (runCalls_none (filter notable pre)) in Hc.
  - simpl in Hc. now injection Hc as ->.
  - intros ms' Hin. apply filter_In in Hin. exact (Hpre ms' (proj1 Hin)).
Qed.

Lemma main_runs_once_witness :
  exists r tr pre,
    main sampleEnv [] = Done r tr
    /\ tr = pre ++ [Run [modalGroup; localdate; localtime]].
Proof.
  destruct (main sampleEnv []) as [r tr|msg tr] eqn:E;
    [|vm_compute in E; discriminate E].
  destruct (main_runs_once sampleEnv r tr E) as (F & pre & T & _).
  exists r, tr, pre. split; [reflexivity|]. now rewrite <- F.
Defined.

(** X14.  When [main] does not panic, the modules it has built are
    exactly the modules the bar shows, those given to [barista.Run]
    or listed in a mode (the modal group apart, which [Build] makes); and
    no module is built twice. *)
Theorem built_modules_are_shown (env : Env)
  (r : list BarModule * modal.Controller) (tr : list Event) :
  main env [] = Done r tr ->
  (forall m, In (Construct m) tr
             <-> In m (shownModules r) /\ m <> modalGroup)
  /\ NoDup (modulesBuilt tr).
Proof.
  intros H.
  destruct (main_done env r tr H) as (_ & _ & _ & _ & _ & B & N & _).
  rewrite shown_watch, modulesBuilt_notable in N. split; [|exact N].
  intros m. rewrite <- In_modulesBuilt, <- modulesBuilt_notable,
    <- shown_watch. apply B.
Qed.

Lemma built_modules_are_shown_witness :
  exists r tr,
    main sampleEnv [] = Done r tr
    /\ In wthr (shownModules r)
    /\ NoDup (modulesBuilt tr).
Proof.
  destruct (main sampleEnv []) as [r tr|msg tr] eqn:E;
    [|vm_compute in E; discriminate E].
  destruct (built_modules_are_shown sampleEnv r tr E) as (B & N).
  exists r, tr. split; [reflexivity|]. split; [|exact N].
  apply B. vm_compute in E. injection E as _ <-.
  repeat (first [left; reflexivity | right]).
Defined.


